(** * Mr. Optics: the lens collection, the radius formula, the axial layout
      and the ray trace, embedded from the TypeScript sources.

  JavaScript numbers are IEEE 754 binary64 values: they are modelled by
  Rocq's primitive floats, whose comparisons ([=?], [<?], [<=?]) are the
  IEEE ones ([NaN] compares false with everything, [-0 =? 0] holds).
  Lens identifiers and array indices are integers of the program and are
  modelled by [Z] and [nat]. *)

From Stdlib Require Import ZArith Floats String Lia.
From stdpp Require Import base list.

Set Warnings "-inexact-float".

(* ================================================================== *)
(** ** JavaScript primitives used by the sources *)

Module Js.

(** [isNaN(x)] on a number. *)
Definition isNaN (x : float) : bool := PrimFloat.is_nan x.

(** Truthiness of a number: everything but [0], [-0] and [NaN]. *)
Definition truthy (x : float) : bool :=
  negb (x =? 0)%float && negb (isNaN x).

(** [a[i] || dflt] for an array read [a[i]] ([None] is [undefined]). *)
Definition or_default (v : option float) (dflt : float) : float :=
  match v with
  | Some x => if truthy x then x else dflt
  | None => dflt
  end.

(** [Math.max(a, b)]: [NaN] if either argument is, and [+0] above [-0]. *)
Definition Math_max (a b : float) : float :=
  if isNaN a || isNaN b then PrimFloat.nan
  else if (a <? b)%float then b
  else if (b <? a)%float then a
  else if PrimFloat.get_sign a then b else a.

(** [a.findIndex(p)]: the first index whose element satisfies [p], or -1. *)
Fixpoint findIndex_from {A} (p : A -> bool) (i : Z) (l : list A) : Z :=
  match l with
  | [] => (-1)%Z
  | x :: l' => if p x then i else findIndex_from p (i + 1)%Z l'
  end.

Definition findIndex {A} (p : A -> bool) (l : list A) : Z :=
  findIndex_from p 0%Z l.

(** [a.filter((x, i) => p(x, i))]. *)
Fixpoint filter_from {A} (p : A -> nat -> bool) (i : nat) (l : list A)
  : list A :=
  match l with
  | [] => []
  | x :: l' =>
      if p x i then x :: filter_from p (S i) l' else filter_from p (S i) l'
  end.

Definition filteri {A} (p : A -> nat -> bool) (l : list A) : list A :=
  filter_from p 0 l.

(** A relative index of [slice], clamped to [0 .. len]. *)
Definition clamp_index (len : nat) (k : Z) : nat :=
  if (k <? 0)%Z then Z.to_nat (Z.max (Z.of_nat len + k) 0)
  else Nat.min (Z.to_nat k) len.

(** [a.slice(start, stop)]. *)
Definition slice {A} (start stop : Z) (l : list A) : list A :=
  let k := clamp_index (length l) start in
  let f := clamp_index (length l) stop in
  take (f - k) (drop k l).

(** [a.forEach((x, i) => body)], the loop state threaded explicitly. *)
Fixpoint forEach_from {A St} (body : St -> A -> nat -> St) (i : nat)
    (l : list A) (s : St) : St :=
  match l with
  | [] => s
  | x :: l' => forEach_from body (S i) l' (body s x i)
  end.

Definition forEach {A St} (body : St -> A -> nat -> St) (l : list A)
    (s : St) : St :=
  forEach_from body 0 l s.

(** [for (let i = 0; i < n; i++) body]. *)
Definition for_upto {St} (n : nat) (body : St -> nat -> St) (s : St)
  : St :=
  fold_left body (seq 0 n) s.

End Js.

(* ================================================================== *)
(** ** lenses.ts: the lens entity and the radius of curvature *)

Inductive LensType : Set := Biconvex | Biconcave.

Definition LensType_eqb (a b : LensType) : bool :=
match a, b with
| Biconvex, Biconvex | Biconcave, Biconcave => true
| _, _ => false
end.

(** The lens entity of the current sources: every field is a number. *)
Module Lens.
Record t : Set := mk {
  id : Z;
  power : float;
  index : float;
  type : LensType;
  r : float
}.

(** [{...l, power: p, r: radius}] *)
Definition with_power_r (l : t) (p radius : float) : t :=
  {| id := id l; power := p; index := index l; type := type l;
     r := radius |}.

(** [{...l, index: n, r: radius}] *)
Definition with_index_r (l : t) (n radius : float) : t :=
  {| id := id l; power := power l; index := n; type := type l;
     r := radius |}.
End Lens.

(** [calcRadius] as the lens collection uses it: the result type is
  [number], and zero power yields the number [0]. *)
Module Lenses.

Definition calcRadius (power index : float) (type : LensType) : float :=
  if (power =? 0)%float then 0%float
  else if LensType_eqb type Biconvex
       then (2 * (index - 1) / power)%float
       else (2 * (index - 1) / power)%float.

End Lenses.

(** The variant of [calcRadius] whose result type is [number | null]
  ([None] is [null]). *)
Module LensesNullable.

Definition calcRadius (power index : float) (type : LensType)
  : option float :=
  if (power =? 0)%float then None
  else if LensType_eqb type Biconvex
       then Some (2 * (index - 1) / power)%float
       else Some (2 * (index - 1) / power)%float.

End LensesNullable.

(* ================================================================== *)
(** ** Config.tsx: the lens collection state and its mutations *)

Module Config.

(** The two signals the component owns ([lenses.value], [distances.value])
    and the module-level identifier counter [nextId]. *)
Record Store : Set := mkStore {
  lenses : list Lens.t;
  distances : list float;
  nextId : Z
}.

Definition set_lenses (st : Store) (ls : list Lens.t) : Store :=
  {| lenses := ls; distances := distances st; nextId := nextId st |}.

Definition set_distances (st : Store) (ds : list float) : Store :=
  {| lenses := lenses st; distances := ds; nextId := nextId st |}.

(** The store of main.tsx at start-up. *)
Definition initial : Store :=
  {| lenses := []; distances := []; nextId := 1 |}.

(** The object literal of [addLens], for the identifier [nextId++] gave. *)
Definition new_lens (id : Z) : Lens.t :=
  {| Lens.id := id;
     Lens.type := Biconvex;
     Lens.index := 1.5;
     Lens.power := 6;
     Lens.r := Lenses.calcRadius 6 1.5 Biconvex |}.

Definition addLens (st : Store) : Store :=
  let length := List.length (lenses st) in
  let st1 :=
    if (length <? 3)%nat then
      {| lenses := lenses st ++ [ new_lens (nextId st) ];
         distances := distances st;
         nextId := (nextId st + 1)%Z |}
    else st in
  if (0 <? length)%nat then
    set_distances st1 (distances st1 ++ [1.0%float])
  else st1.

Definition deleteLens (st : Store) (id : Z) : Store :=
  let deletedIndex :=
    Js.findIndex (fun l => (Lens.id l =? id)%Z) (lenses st) in
  let st1 :=
    set_lenses st
      (List.filter (fun l => negb (Lens.id l =? id)%Z) (lenses st)) in
  if (deletedIndex <? Z.of_nat (List.length (lenses st1)))%Z then
    set_distances st1
      (Js.filteri (fun _ i => negb (Z.of_nat i =? deletedIndex)%Z)
         (distances st1))
  else if (0 <? List.length (distances st1))%nat then
    set_distances st1 (Js.slice 0 (-1) (distances st1))
  else st1.

Definition updateLensPower (st : Store) (id : Z) (newPower : float)
  : Store :=
  set_lenses st
    ((fun l =>
        if (Lens.id l =? id)%Z && negb (newPower =? 0)%float
           && (-7.8 <? newPower)%float
        then
          let radius :=
            Lenses.calcRadius newPower (Lens.index l) (Lens.type l) in
          Lens.with_power_r l newPower radius
        else l)
     <$> lenses st).

Definition updateLensIndex (st : Store) (id : Z) (newIndex : float)
  : Store :=
  if (1.5 <=? newIndex)%float then
    set_lenses st
      ((fun l =>
          if (Lens.id l =? id)%Z then
            let radius :=
              Lenses.calcRadius (Lens.power l) newIndex (Lens.type l) in
            Lens.with_index_r l newIndex radius
          else l)
       <$> lenses st)
  else st.

Definition updateDistance (st : Store) (index : Z) (newDistance : float)
  : Store :=
  if negb (Js.isNaN newDistance) && (0.2 <=? newDistance)%float then
    set_distances st
      (imap (fun i d => if (Z.of_nat i =? index)%Z then newDistance else d)
         (distances st))
  else st.

(** The user actions that reach the store, and the stores they reach. *)
Inductive Action : Set :=
| AddLens
| DeleteLens (id : Z)
| UpdateLensPower (id : Z) (newPower : float)
| UpdateLensIndex (id : Z) (newIndex : float)
| UpdateDistance (index : Z) (newDistance : float).

Definition step (st : Store) (a : Action) : Store :=
  match a with
  | AddLens => addLens st
  | DeleteLens id => deleteLens st id
  | UpdateLensPower id p => updateLensPower st id p
  | UpdateLensIndex id n => updateLensIndex st id n
  | UpdateDistance k d => updateDistance st k d
  end.

Definition run (st : Store) (actions : list Action) : Store :=
  fold_left step actions st.

Inductive reachable : Store -> Prop :=
| reachable_initial : reachable initial
| reachable_step st a : reachable st -> reachable (step st a).

(** The invariants of the data model. *)
Definition distances_invariant (st : Store) : Prop :=
  List.length (distances st) = Nat.max (List.length (lenses st) - 1) 0.

Definition unique_ids (st : Store) : Prop :=
  NoDup (Lens.id <$> lenses st).

Definition ids_fresh (st : Store) : Prop :=
  Forall (fun l => (Lens.id l < nextId st)%Z) (lenses st).

Definition index_at_least_min (l : Lens.t) : Prop :=
  (1.5 <=? Lens.index l)%float = true.

Definition distance_valid (d : float) : Prop :=
  (0.2 <=? d)%float = true.

(** A chain of three lenses with the gaps 1.0 m and 1.5 m, and the store
    three [addLens] calls build. *)
Definition chain3 : Store :=
  {| lenses := [new_lens 1; new_lens 2; new_lens 3];
     distances := [1.0%float; 1.5%float];
     nextId := 4 |}.

Definition added3 : Store := run initial [AddLens; AddLens; AddLens].

End Config.

(* ================================================================== *)
(** ** Renderer.tsx: the axial layout and the ray trace *)

Module Renderer.

(** The component state [dimensions] (the measured canvas). *)
Record Dimensions : Set := mkDimensions {
  width : float;
  height : float
}.

(** [useState({ width: 800, height: 400 })]: the canvas before it is
    measured. *)
Definition initialDimensions : Dimensions :=
  {| width := 800; height := 400 |}.

Definition centerY (dimensions : Dimensions) : float :=
  (height dimensions / 2)%float.

(** Scale factor: 200 pixels = 1 meter. *)
Definition pixelsPerMeter : float := 200%float.

Definition calculateLensX (distances : list float) (index : nat) : float :=
  if (index =? 0)%nat then 200%float
  else
    Js.for_upto index
      (fun totalDistance i =>
         let distance := Js.or_default (distances !! i) 1.0 in
         (totalDistance + distance * pixelsPerMeter)%float)
      200%float.

(** The mutable locals of [simpleRayTrace]. *)
Record RayState : Set := mkRayState {
  pathData : string;
  currentX : float;
  currentYPos : float;
  currentSlope : float
}.

Section Trace.

(** The conversion of a number inside a template literal. *)
Variable numberToString : float -> string.

Variable dimensions : Dimensions.
Variable distances : list float.

(** The body of [lenses.forEach((lens, i) => ...)]. *)
Definition trace_lens (s : RayState) (lens : Lens.t) (i : nat) : RayState :=
  let lensX := calculateLensX distances i in
  let deltaX := (lensX - currentX s)%float in
  let currentYPos' := (currentYPos s + currentSlope s * deltaX)%float in
  let pathData' :=
    (pathData s ++
     (" L " ++ numberToString lensX ++ " " ++ numberToString currentYPos'))
      %string in
  let h := (currentYPos' - centerY dimensions)%float in
  let deltaSlope := ((- (h / pixelsPerMeter)) * Lens.power lens)%float in
  {| pathData := pathData';
     currentX := lensX;
     currentYPos := currentYPos';
     currentSlope := (currentSlope s + deltaSlope * 0.1)%float |}.

Definition simpleRayTrace (startY : float) (lenses : list Lens.t) : string :=
  let s0 :=
    {| pathData := ("M 0 " ++ numberToString startY)%string;
       currentX := 0;
       currentYPos := startY;
       currentSlope := 0 |} in
  let s := Js.forEach trace_lens lenses s0 in
  let endX := Js.Math_max (width dimensions) (currentX s + 100)%float in
  let finalY :=
    (currentYPos s + currentSlope s * (endX - currentX s))%float in
  (pathData s ++
   (" L " ++ numberToString endX ++ " " ++ numberToString finalY))%string.

End Trace.

End Renderer.

(* ================================================================== *)
(** ** The layout and the trace as the specification words them *)

Module Spec.

Definition point : Set := (float * float)%type.

(** The fixed start offset and the meters-to-units scale. *)
Definition start : float := 200%float.
Definition scale : float := 200%float.

(** [positionOf(k)]: the start offset plus, for each [i < k] in order,
    [distances[i] * scale], a missing entry counting as 1.0 m. *)
Definition positionOf (distances : list float) (k : nat) : float :=
  fold_left (fun acc term => (acc + term)%float)
    ((fun i => (default 1.0%float (distances !! i) * scale)%float)
     <$> seq 0 k)
    start.

Section Trace.

Variable canvasRight : float.
Variable centerAxisY : float.
Variable position : nat -> float.

(** The fold over the lens sequence: the crossing point at each lens, then
    the point that extends the ray at its final slope. *)
Fixpoint trace_from (i : nat) (x y slope : float) (lensSequence : list Lens.t)
  : list point :=
  match lensSequence with
  | [] =>
      let endX := Js.Math_max canvasRight (x + 100)%float in
      [ (endX, (y + slope * (endX - x))%float) ]
  | lens :: rest =>
      let lensX := position i in
      let y' := (y + slope * (lensX - x))%float in
      let deltaSlope :=
        ((- ((y' - centerAxisY) / scale)) * Lens.power lens)%float in
      (lensX, y')
      :: trace_from (S i) lensX y' (slope + deltaSlope * 0.1)%float rest
  end.

Definition trace (startHeight : float) (lensSequence : list Lens.t)
  : list point :=
  (0%float, startHeight)
  :: trace_from 0 0%float startHeight 0%float lensSequence.

End Trace.

(** The SVG path text of a polyline that starts on the left edge. *)
Definition render_line (numberToString : float -> string) (p : point)
  : string :=
  (" L " ++ numberToString (fst p) ++ " " ++ numberToString (snd p))%string.

Definition render (numberToString : float -> string) (polyline : list point)
  : string :=
  match polyline with
  | [] => EmptyString
  | p0 :: rest =>
      fold_left
        (fun acc p => (acc ++ render_line numberToString p)%string)
        rest
        ("M 0 " ++ numberToString (snd p0))%string
  end.

End Spec.

(* ================================================================== *)
(** ** Config.tsx: the add button of [LensConfigurator] *)

Module ConfigUi.

(** [disabled={lenses.value.length >= 3}] *)
Definition add_disabled (st : Config.Store) : bool :=
  (3 <=? List.length (Config.lenses st))%nat.

(** [onClick={() => addLens(lenses, distances)}] on that button: a disabled
    button delivers no click. *)
Definition onAddClick (st : Config.Store) : Config.Store :=
  if add_disabled st then st else Config.addLens st.

(** The store after a user action: the add button as above; every other
    handler of [LensConfig] (inputs, steppers, delete button) calls
    [deleteLens], [updateLensPower], [updateLensIndex] or [updateDistance]
    with arguments of its own, here any arguments. *)
Definition ui_step (st : Config.Store) (a : Config.Action) : Config.Store :=
  match a with
  | Config.AddLens => onAddClick st
  | _ => Config.step st a
  end.

Definition ui_run (st : Config.Store) (actions : list Config.Action)
  : Config.Store :=
  fold_left ui_step actions st.

End ConfigUi.

(* ================================================================== *)
(** ** Renderer.tsx: the rendered lenses and the view box *)

Module View.

(** [lenses.value.filter((l) => l.r)] *)
Definition currentLenses (lenses : list Lens.t) : list Lens.t :=
  List.filter (fun l => Js.truthy (Lens.r l)) lenses.

Definition lastLensX (dimensions : Renderer.Dimensions)
    (distances : list float) (lenses : list Lens.t) : float :=
  if (0 <? List.length (currentLenses lenses))%nat then
    (Renderer.calculateLensX distances
       (List.length (currentLenses lenses) - 1) + 100)%float
  else Renderer.width dimensions.

Definition viewBoxWidth (dimensions : Renderer.Dimensions)
    (distances : list float) (lenses : list Lens.t) : float :=
  Js.Math_max (Renderer.width dimensions)
    (lastLensX dimensions distances lenses).

End View.

(* ================================================================== *)
(** ** src/Renderer.tsx: the trace that deflects the height directly *)

Module RendererDeflect.

(** [calculateLensX] as this trace calls it, also with [lenses.length - 1],
    which is -1 for no lens: the index is an integer, and the loop
    [for (let i = 0; i < index; i++)] does not run for a negative one. *)
Definition calculateLensX (distances : list float) (index : Z) : float :=
  if (index =? 0)%Z then 200%float
  else
    Js.for_upto (Z.to_nat index)
      (fun totalDistance i =>
         let distance := Js.or_default (distances !! i) 1.0 in
         (totalDistance + distance * Renderer.pixelsPerMeter)%float)
      200%float.

(** The mutable locals of [simpleRayTrace]. *)
Record RayState : Set := mkRayState {
  pathData : string;
  currentY : float
}.

Section Trace.

Variable numberToString : float -> string.
Variable dimensions : Renderer.Dimensions.
Variable distances : list float.

(** The body of [lenses.forEach((lens, i) => ...)]. *)
Definition trace_lens (s : RayState) (lens : Lens.t) (i : nat) : RayState :=
  let lensX := calculateLensX distances (Z.of_nat i) in
  let pathData' :=
    (pathData s ++
     (" L " ++ numberToString lensX ++ " " ++ numberToString (currentY s)))
      %string in
  let deflection :=
    (Lens.power lens * (currentY s - Renderer.centerY dimensions) * 0.25)
      %float in
  {| pathData := pathData'; currentY := (currentY s - deflection)%float |}.

Definition simpleRayTrace (startY : float) (lenses : list Lens.t) : string :=
  let s0 :=
    {| pathData := ("M 0 " ++ numberToString startY)%string;
       currentY := startY |} in
  let s := Js.forEach trace_lens lenses s0 in
  let lastLensX :=
    calculateLensX distances (Z.of_nat (List.length lenses) - 1) in
  let endX :=
    Js.Math_max (Renderer.width dimensions) (lastLensX + 100)%float in
  (pathData s ++
   (" L " ++ numberToString endX ++ " " ++ numberToString (currentY s)))
    %string.

End Trace.

End RendererDeflect.

(* ================================================================== *)
(** ** Classes of binary64 values *)

(** Zero or a finite non-zero number: neither [NaN] nor an infinity. *)
Definition SF_finite (a : spec_float) : Prop :=
  match a with
  | S754_zero _ | S754_finite _ _ _ => True
  | _ => False
  end.

(* ================================================================== *)
(** * Facts about binary64 comparisons and arithmetic *)

Section FloatFacts.

Lemma SFcompare_swap (a b : spec_float) :
  SFcompare b a = option_map CompOpp (SFcompare a b).
Proof.
  destruct a as [sa|sa| |sa ma ea], b as [sb|sb| |sb mb eb]; simpl;
    try reflexivity;
    try (destruct sa; reflexivity); try (destruct sb; reflexivity);
    try (destruct sa, sb; reflexivity).
  assert (Hm : Pos.compare_cont Eq mb ma
               = CompOpp (Pos.compare_cont Eq ma mb))
    by (rewrite Pos.compare_cont_antisym; reflexivity).
  destruct sa, sb; simpl; try reflexivity;
    rewrite (Z.compare_antisym ea eb), Hm;
    destruct (ea ?= eb)%Z; simpl; try reflexivity.
Qed.

Lemma ltb_true_leb_false (x y : float) :
  (x <? y)%float = true -> (y <=? x)%float = false.
Proof.
  rewrite ltb_spec, leb_spec. unfold SFltb, SFleb.
  rewrite (SFcompare_swap (Prim2SF x) (Prim2SF y)).
  destruct (SFcompare (Prim2SF x) (Prim2SF y)) as [[]|]; simpl; congruence.
Qed.

Lemma leb_true_not_nan (x y : float) :
  (x <=? y)%float = true -> PrimFloat.is_nan y = false.
Proof.
  unfold PrimFloat.is_nan.
  rewrite FloatAxioms.leb_spec, FloatAxioms.eqb_spec. unfold SFleb, SFeqb.
  destruct (Prim2SF x) as [sa|sa| |sa ma ea],
           (Prim2SF y) as [sb|sb| |sb mb eb];
    simpl; try congruence; try (destruct sb; reflexivity).
  all: intros _; destruct sb; rewrite Z.compare_refl, Pos.compare_cont_refl;
    reflexivity.
Qed.

Lemma distance_valid_truthy (d : float) :
  (0.2 <=? d)%float = true -> Js.truthy d = true.
Proof.
  intros H. unfold Js.truthy, Js.isNaN.
  rewrite (leb_true_not_nan _ _ H).
  revert H. rewrite FloatAxioms.leb_spec, FloatAxioms.eqb_spec.
  unfold SFleb, SFeqb.
  change (Prim2SF 0.2) with (S754_finite false 7205759403792794 (-55)).
  change (Prim2SF 0) with (S754_zero false).
  destruct (Prim2SF d) as [sb|sb| |sb mb eb]; simpl; try congruence;
    intros _; destruct sb; reflexivity.
Qed.

Lemma is_finite_SF_finite (w : float) :
  PrimFloat.is_finite w = true -> SF_finite (Prim2SF w).
Proof.
  unfold PrimFloat.is_finite, PrimFloat.is_nan, PrimFloat.is_infinity.
  rewrite !FloatAxioms.eqb_spec, abs_spec.
  destruct (Prim2SF w) as [s|s| |s m e]; simpl; try exact (fun _ => I).
  - rewrite Bool.orb_true_r. discriminate.
  - discriminate.
Qed.

Lemma is_finite_not_nan (w : float) :
  PrimFloat.is_finite w = true -> Js.isNaN w = false.
Proof.
  unfold PrimFloat.is_finite, Js.isNaN.
  destruct (PrimFloat.is_nan w); simpl; congruence.
Qed.

Lemma Math_max_cases (a b : float) :
  Js.isNaN a = false -> Js.isNaN b = false ->
  Js.Math_max a b = a \/ Js.Math_max a b = b.
Proof.
  intros Ha Hb. unfold Js.Math_max. rewrite Ha, Hb. simpl.
  destruct (a <? b)%float; [right; reflexivity|].
  destruct (b <? a)%float; [left; reflexivity|].
  destruct (get_sign a); [right|left]; reflexivity.
Qed.

Lemma Math_max_finite (a b : float) :
  PrimFloat.is_finite a = true -> PrimFloat.is_finite b = true ->
  PrimFloat.is_finite (Js.Math_max a b) = true.
Proof.
  intros Ha Hb.
  destruct (Math_max_cases a b) as [-> | ->];
    auto using is_finite_not_nan.
Qed.

Lemma add_zero_mul_finite (x e : float) :
  PrimFloat.is_finite e = true -> x <> neg_zero ->
  (x + 0 * (e - 0))%float = x.
Proof.
  intros He Hx. apply Prim2SF_inj.
  rewrite add_spec, mul_spec, sub_spec.
  apply is_finite_SF_finite in He.
  change (Prim2SF 0) with (S754_zero false).
  assert (Hx' : Prim2SF x <> S754_zero true).
  { intros E. apply Hx. apply Prim2SF_inj. exact E. }
  destruct (Prim2SF e) as [s|s| |s m ex]; simpl in He; try contradiction;
    destruct (Prim2SF x) as [sx|sx| |sx mx exx]; try reflexivity;
    destruct s, sx; try reflexivity; congruence.
Qed.

End FloatFacts.

(* ================================================================== *)
(** * Facts about the array methods *)

Section ArrayFacts.
Context {A : Type}.
Implicit Types (l : list A) (p : A -> bool).

Lemma findIndex_from_absent p i l :
  Forall (fun x => p x = false) l -> Js.findIndex_from p i l = (-1)%Z.
Proof.
  intros H. revert i. induction H as [|x l Hx _ IH]; intros i; simpl.
  - reflexivity.
  - rewrite Hx. apply IH.
Qed.

Lemma findIndex_from_first p i l k x :
  l !! k = Some x -> p x = true ->
  (forall j y, (j < k)%nat -> l !! j = Some y -> p y = false) ->
  Js.findIndex_from p i l = (i + Z.of_nat k)%Z.
Proof.
  revert i k. induction l as [|a l IH]; intros i k Hk Hx Hbefore.
  - discriminate.
  - destruct k as [|k]; simpl in *.
    + injection Hk as ->. rewrite Hx. lia.
    + rewrite (Hbefore 0%nat a) by (reflexivity || lia).
      rewrite (IH (i + 1)%Z k Hk Hx).
      * lia.
      * intros j y Hj Hy. apply (Hbefore (S j) y); [lia | exact Hy].
Qed.

Lemma filter_from_delete i k l :
  Js.filter_from (fun _ j => negb (Z.of_nat j =? Z.of_nat (i + k))%Z) i l
  = delete k l.
Proof.
  revert i k. induction l as [|a l IH]; intros i k; simpl.
  - reflexivity.
  - destruct k as [|k].
    + rewrite Nat.add_0_r, Z.eqb_refl. simpl.
      clear IH. generalize (le_n (S i)). generalize (S i) at 2 3.
      induction l as [|b l IH]; intros j Hj; simpl; [reflexivity|].
      destruct (Z.eqb_spec (Z.of_nat j) (Z.of_nat i)); [lia|].
      simpl. f_equal. apply IH. lia.
    + destruct (Z.eqb_spec (Z.of_nat i) (Z.of_nat (i + S k))); [lia|].
      simpl. f_equal. replace (i + S k)%nat with (S i + k)%nat by lia.
      apply IH.
Qed.

Lemma filter_from_negative (d : Z) i l :
  (d < 0)%Z ->
  Js.filter_from (fun _ j => negb (Z.of_nat j =? d)%Z) i l = l.
Proof.
  intros Hd. revert i. induction l as [|a l IH]; intros i; simpl.
  - reflexivity.
  - destruct (Z.eqb_spec (Z.of_nat i) d); [lia|]. simpl. f_equal. apply IH.
Qed.

Lemma slice_drop_last l : Js.slice 0 (-1) l = removelast l.
Proof.
  unfold Js.slice, Js.clamp_index. simpl.
  rewrite removelast_firstn_len.
  replace (Z.to_nat (Z.max (Z.of_nat (length l) + -1) 0) - 0)%nat
    with (Nat.pred (length l)) by lia.
  reflexivity.
Qed.

Lemma filter_keep_all p l :
  Forall (fun x => p x = true) l -> List.filter p l = l.
Proof.
  induction 1 as [|x l Hx _ IH]; simpl; [reflexivity|].
  rewrite Hx, IH. reflexivity.
Qed.

End ArrayFacts.

(* ================================================================== *)
(** * Optics math: [calcRadius] *)

Section OpticsMath.

Implicit Types (power index : float) (type : LensType).

Lemma calcRadius_nonzero power index type :
  (power =? 0)%float = false ->
  Lenses.calcRadius power index type = (2 * (index - 1) / power)%float.
Proof.
  intros H. unfold Lenses.calcRadius. rewrite H.
  destruct type; reflexivity.
Qed.

Lemma calcRadius_zero power index type :
  (power =? 0)%float = true -> Lenses.calcRadius power index type = 0%float.
Proof. intros H. unfold Lenses.calcRadius. rewrite H. reflexivity. Qed.

Lemma calcRadius_nullable_nonzero power index type :
  (power =? 0)%float = false ->
  LensesNullable.calcRadius power index type
  = Some (2 * (index - 1) / power)%float.
Proof.
  intros H. unfold LensesNullable.calcRadius. rewrite H.
  destruct type; reflexivity.
Qed.

(** C4, as amended. For every power, index and lens type: when power is not 0
    ([power !== 0]) both variants of [calcRadius] yield [2*(index-1)/power];
    when power equals 0 the nullable variant yields [null] (no radius) and
    the number-typed variant, the one the lens collection calls, yields the
    number 0, which is falsy, so that readers testing [lens.r] skip it. *)
Theorem calcRadius_formula power index type :
  ((power =? 0)%float = false ->
     Lenses.calcRadius power index type = (2 * (index - 1) / power)%float /\
     LensesNullable.calcRadius power index type
     = Some (2 * (index - 1) / power)%float) /\
  ((power =? 0)%float = true ->
     LensesNullable.calcRadius power index type = None /\
     Lenses.calcRadius power index type = 0%float /\
     Js.truthy (Lenses.calcRadius power index type) = false).
Proof.
  split; intros H.
  - split; [apply calcRadius_nonzero | apply calcRadius_nullable_nonzero];
      exact H.
  - unfold LensesNullable.calcRadius. rewrite (calcRadius_zero _ _ _ H), H.
    repeat split; reflexivity.
Qed.

Lemma calcRadius_formula_witness :
  (Lenses.calcRadius 6 1.5 Biconvex = (2 * (1.5 - 1) / 6)%float /\
   LensesNullable.calcRadius 6 1.5 Biconvex = Some (2 * (1.5 - 1) / 6)%float)
  /\
  (LensesNullable.calcRadius 0 1.5 Biconcave = None /\
   Lenses.calcRadius 0 1.5 Biconcave = 0%float /\
   Js.truthy (Lenses.calcRadius 0 1.5 Biconcave) = false).
Proof.
  split.
  - apply (proj1 (calcRadius_formula 6 1.5 Biconvex)). reflexivity.
  - apply (proj2 (calcRadius_formula 0 1.5 Biconcave)). reflexivity.
Defined.

(** C4 as stated fails on the number-typed [calcRadius]: at zero power it
    produces the number 0, where the nullable variant produces [null]. *)
Lemma calcRadius_zero_power_is_a_number :
  Lenses.calcRadius 0 1.5 Biconvex = 0%float /\
  LensesNullable.calcRadius 0 1.5 Biconvex = None /\
  Some (Lenses.calcRadius 0 1.5 Biconvex)
  <> LensesNullable.calcRadius 0 1.5 Biconvex.
Proof. repeat split. discriminate. Qed.

(** C9. For every power (not only the non-zero ones) and every index,
    [calcRadius(power, index, "biconvex")] and
    [calcRadius(power, index, "biconcave")] are the same value, in both
    variants of the function: the two branches compute identically. *)
Theorem calcRadius_type_irrelevant power index :
  Lenses.calcRadius power index Biconvex
  = Lenses.calcRadius power index Biconcave /\
  LensesNullable.calcRadius power index Biconvex
  = LensesNullable.calcRadius power index Biconcave.
Proof.
  unfold Lenses.calcRadius, LensesNullable.calcRadius.
  destruct (power =? 0)%float; split; reflexivity.
Qed.

End OpticsMath.

(* ================================================================== *)
(** * The lens collection state *)

Ltac branch :=
  match goal with
  | |- context [if ?c then _ else _] => destruct c eqn:?
  end.

Section LensCollection.

Import Config.

Lemma set_lenses_same st : set_lenses st (lenses st) = st.
Proof. destruct st; reflexivity. Qed.

Lemma set_distances_same st : set_distances st (distances st) = st.
Proof. destruct st; reflexivity. Qed.

Lemma unique_id_elsewhere (ls : list Lens.t) k l :
  NoDup (Lens.id <$> ls) -> ls !! k = Some l ->
  forall j l', j <> k -> ls !! j = Some l' -> Lens.id l' <> Lens.id l.
Proof.
  intros Hnd Hk j l' Hjk Hj E. apply Hjk.
  apply (NoDup_lookup _ j k (Lens.id l) Hnd);
    rewrite list_lookup_fmap; [rewrite Hj | rewrite Hk]; simpl; congruence.
Qed.

Lemma filter_unique_delete (ls : list Lens.t) k l :
  NoDup (Lens.id <$> ls) -> ls !! k = Some l ->
  List.filter (fun l' => negb (Lens.id l' =? Lens.id l)%Z) ls = delete k ls.
Proof.
  revert k. induction ls as [|a ls IH]; intros k Hnd Hk; [discriminate|].
  destruct k as [|k]; simpl in *.
  - injection Hk as ->. rewrite Z.eqb_refl. simpl.
    apply filter_keep_all. apply Forall_lookup_2. intros j l' Hj.
    apply Bool.negb_true_iff, Z.eqb_neq.
    apply (unique_id_elsewhere (l :: ls) 0%nat l Hnd eq_refl (S j) l');
      [lia | exact Hj].
  - assert (Ha : Lens.id a <> Lens.id l).
    { apply (unique_id_elsewhere (a :: ls) (S k) l Hnd Hk 0%nat a);
        [lia | reflexivity]. }
    apply Z.eqb_neq in Ha. rewrite Ha. simpl. f_equal.
    apply IH; [|exact Hk]. inversion Hnd; assumption.
Qed.

Lemma findIndex_unique (ls : list Lens.t) k l :
  NoDup (Lens.id <$> ls) -> ls !! k = Some l ->
  Js.findIndex (fun l' => (Lens.id l' =? Lens.id l)%Z) ls = Z.of_nat k.
Proof.
  intros Hnd Hk. unfold Js.findIndex.
  rewrite (findIndex_from_first _ 0 ls k l Hk (Z.eqb_refl _)); [lia|].
  intros j y Hj Hy. apply Z.eqb_neq.
  apply (unique_id_elsewhere ls k l Hnd Hk j y); [lia | exact Hy].
Qed.

Lemma deleteLens_absent st id :
  Forall (fun l => Lens.id l <> id) (lenses st) -> deleteLens st id = st.
Proof.
  intros H. unfold deleteLens.
  rewrite filter_keep_all
    by (eapply Forall_impl; [exact H|]; cbv beta; intros l Hl;
        apply Bool.negb_true_iff, Z.eqb_neq; exact Hl).
  unfold Js.findIndex. rewrite findIndex_from_absent
    by (eapply Forall_impl; [exact H|]; cbv beta; intros l Hl;
        apply Z.eqb_neq; exact Hl).
  rewrite set_lenses_same.
  destruct (Z.ltb_spec (-1) (Z.of_nat (length (lenses st)))); [|lia].
  unfold Js.filteri. rewrite filter_from_negative by lia.
  apply set_distances_same.
Qed.

Lemma deleteLens_present st k l :
  unique_ids st -> lenses st !! k = Some l ->
  deleteLens st (Lens.id l) =
  {| lenses := delete k (lenses st);
     distances :=
       if (S k <? length (lenses st))%nat then delete k (distances st)
       else removelast (distances st);
     nextId := nextId st |}.
Proof.
  intros Hnd Hk. unfold deleteLens.
  rewrite (findIndex_unique _ k l Hnd Hk).
  rewrite (filter_unique_delete _ k l Hnd Hk).
  assert (Hlen : length (delete k (lenses st)) = (length (lenses st) - 1)%nat).
  { apply length_delete. rewrite Hk. eauto. }
  pose proof (lookup_lt_Some _ _ _ Hk) as Hlt.
  cbn [lenses distances set_lenses set_distances nextId]. rewrite Hlen.
  destruct (Nat.ltb_spec (S k) (length (lenses st))) as [Hlast|Hlast].
  - destruct (Z.ltb_spec (Z.of_nat k) (Z.of_nat (length (lenses st) - 1)));
      [|lia].
    unfold Js.filteri.
    rewrite <- (filter_from_delete 0 k (distances st)). reflexivity.
  - destruct (Z.ltb_spec (Z.of_nat k) (Z.of_nat (length (lenses st) - 1)));
      [lia|].
    unfold set_distances, set_lenses; cbn [lenses distances nextId].
    destruct (distances st) as [|d ds]; [reflexivity|].
    cbn [length Nat.ltb Nat.leb]. rewrite slice_drop_last. reflexivity.
Qed.

Lemma addLens_below_cap st :
  (length (lenses st) < 3)%nat ->
  addLens st =
  {| lenses := lenses st ++ [ new_lens (nextId st) ];
     distances :=
       if (0 <? length (lenses st))%nat then distances st ++ [1.0%float]
       else distances st;
     nextId := (nextId st + 1)%Z |}.
Proof.
  intros H. unfold addLens.
  destruct (Nat.ltb_spec (length (lenses st)) 3) as [_|]; [|lia].
  destruct (0 <? length (lenses st))%nat; reflexivity.
Qed.

Lemma addLens_at_cap st :
  (3 <= length (lenses st))%nat ->
  addLens st = set_distances st (distances st ++ [1.0%float]).
Proof.
  intros H. unfold addLens.
  destruct (Nat.ltb_spec (length (lenses st)) 3) as [|_]; [lia|].
  destruct (Nat.ltb_spec 0 (length (lenses st))) as [_|]; [|lia].
  reflexivity.
Qed.

Lemma Forall_filter_bool {A} (P : A -> Prop) (p : A -> bool) (l : list A) :
  Forall P l -> Forall P (List.filter p l).
Proof.
  induction 1 as [|x l Hx _ IH]; simpl; [constructor|].
  destruct (p x); [constructor|]; assumption.
Qed.

Lemma Forall_filter_from {A} (P : A -> Prop) (p : A -> nat -> bool) i
    (l : list A) :
  Forall P l -> Forall P (Js.filter_from p i l).
Proof.
  intros H. revert i. induction H as [|x l Hx _ IH]; intros i; simpl;
    [constructor|].
  destruct (p x i); [constructor; [assumption|]|]; apply IH.
Qed.

Lemma Forall_slice {A} (P : A -> Prop) (a b : Z) (l : list A) :
  Forall P l -> Forall P (Js.slice a b l).
Proof. intros H. unfold Js.slice. apply Forall_take, Forall_drop, H. Qed.

Lemma deleteLens_lenses st id :
  lenses (deleteLens st id)
  = List.filter (fun l => negb (Lens.id l =? id)%Z) (lenses st).
Proof.
  unfold deleteLens.
  repeat branch; reflexivity.
Qed.

Lemma deleteLens_nextId st id : nextId (deleteLens st id) = nextId st.
Proof.
  unfold deleteLens.
  repeat branch; reflexivity.
Qed.

Lemma deleteLens_distances_Forall (P : float -> Prop) st id :
  Forall P (distances st) -> Forall P (distances (deleteLens st id)).
Proof.
  intros H. unfold deleteLens.
  repeat branch; cbn [distances set_distances set_lenses]; unfold Js.filteri;
    auto using Forall_filter_from, Forall_slice.
Qed.

Lemma step_index_at_least_min st a :
  Forall index_at_least_min (lenses st) ->
  Forall index_at_least_min (lenses (step st a)).
Proof.
  intros H. destruct a as [|id|id p|id n|k d]; cbn [step].
  - unfold addLens.
    destruct (length (lenses st) <? 3)%nat, (0 <? length (lenses st))%nat;
      cbn [lenses set_distances]; try exact H;
      (apply Forall_app; split; [exact H|]);
      repeat constructor.
  - rewrite deleteLens_lenses. apply Forall_filter_bool, H.
  - unfold updateLensPower. cbn [lenses set_lenses].
    apply Forall_fmap. eapply Forall_impl; [exact H|]. intros l Hl.
    unfold compose. branch; exact Hl.
  - unfold updateLensIndex.
    destruct (1.5 <=? n)%float eqn:Hn; [|exact H].
    cbn [lenses set_lenses].
    apply Forall_fmap. eapply Forall_impl; [exact H|]. intros l Hl.
    unfold compose. destruct (Lens.id l =? id)%Z; [exact Hn | exact Hl].
  - unfold updateDistance. branch; exact H.
Qed.

Lemma reachable_index_at_least_min st :
  reachable st -> Forall index_at_least_min (lenses st).
Proof.
  induction 1 as [|st a _ IH]; [constructor|].
  apply step_index_at_least_min, IH.
Qed.

Lemma reachable_run st actions : reachable st -> reachable (run st actions).
Proof.
  revert st. induction actions as [|a actions IH]; intros st H; [exact H|].
  apply IH. constructor. exact H.
Qed.

Lemma updateLensIndex_rejected st id newIndex :
  (1.5 <=? newIndex)%float = false -> updateLensIndex st id newIndex = st.
Proof. intros H. unfold updateLensIndex. rewrite H. reflexivity. Qed.


Lemma lens_id_absent_or_present (ls : list Lens.t) (id : Z) :
  Forall (fun l => Lens.id l <> id) ls \/
  exists k l, ls !! k = Some l /\ Lens.id l = id.
Proof.
  induction ls as [|a ls IH].
  - left. constructor.
  - destruct (Z.eq_dec (Lens.id a) id) as [E|NE].
    + right. exists 0%nat, a. split; [reflexivity | exact E].
    + destruct IH as [IH | (k & l & Hk & Hl)].
      * left. constructor; assumption.
      * right. exists (S k), l. split; assumption.
Qed.

Lemma filter_bool_sublist {A} (p : A -> bool) (l : list A) :
  sublist (List.filter p l) l.
Proof.
  induction l as [|x l IH]; simpl; [constructor|].
  destruct (p x); [apply sublist_skip | apply sublist_cons]; exact IH.
Qed.

Lemma fmap_id_with_power (g : Lens.t -> Lens.t) (ls : list Lens.t) :
  (forall l, Lens.id (g l) = Lens.id l) ->
  Lens.id <$> (g <$> ls) = Lens.id <$> ls.
Proof.
  intros Hg. rewrite <- list_fmap_compose. apply list_fmap_ext.
  intros i l _. apply Hg.
Qed.

Lemma step_unique_ids st a :
  unique_ids st /\ ids_fresh st ->
  unique_ids (step st a) /\ ids_fresh (step st a).
Proof.
  unfold unique_ids, ids_fresh. intros [Hnd Hfr].
  destruct a as [|id|id p|id n|k d]; cbn [step].
  - destruct (Nat.lt_ge_cases (length (lenses st)) 3) as [Hlen|Hlen].
    + rewrite (addLens_below_cap st Hlen). cbn [lenses nextId]. split.
      * rewrite fmap_app. apply NoDup_app. repeat split.
        -- exact Hnd.
        -- intros x Hx Hx'. apply list_elem_of_fmap in Hx as (l & -> & Hl).
           rewrite Forall_forall in Hfr. specialize (Hfr l Hl).
           apply list_elem_of_singleton in Hx'. simpl in Hx'. lia.
        -- apply NoDup_singleton.
      * apply Forall_app. split.
        -- eapply Forall_impl; [exact Hfr|]. intros l Hl. simpl in *. lia.
        -- repeat constructor. simpl. lia.
    + rewrite (addLens_at_cap st Hlen). split; assumption.
  - rewrite deleteLens_lenses, deleteLens_nextId. split.
    + eapply sublist_NoDup; [exact Hnd|].
      apply fmap_sublist, filter_bool_sublist.
    + apply Forall_filter_bool, Hfr.
  - unfold updateLensPower. cbn [lenses nextId set_lenses]. split.
    + rewrite fmap_id_with_power; [exact Hnd|]. intros l. branch; reflexivity.
    + apply Forall_fmap. eapply Forall_impl; [exact Hfr|]. intros l Hl.
      unfold compose. branch; exact Hl.
  - unfold updateLensIndex. branch; [|split; assumption].
    cbn [lenses nextId set_lenses]. split.
    + rewrite fmap_id_with_power; [exact Hnd|]. intros l. branch; reflexivity.
    + apply Forall_fmap. eapply Forall_impl; [exact Hfr|]. intros l Hl.
      unfold compose. branch; exact Hl.
  - unfold updateDistance. branch; split; assumption.
Qed.

Lemma reachable_unique_ids st : reachable st -> unique_ids st.
Proof.
  intros H. cut (unique_ids st /\ ids_fresh st); [tauto|].
  induction H as [|st a _ IH]; [|apply step_unique_ids, IH].
  split; constructor.
Qed.

Lemma step_distances_valid st a :
  Forall distance_valid (distances st) ->
  Forall distance_valid (distances (step st a)).
Proof.
  intros H. destruct a as [|id|id p|id n|k d]; cbn [step].
  - unfold addLens. repeat branch; cbn [distances set_distances];
      try exact H; (apply Forall_app; split; [exact H|]); repeat constructor.
  - apply deleteLens_distances_Forall, H.
  - exact H.
  - unfold updateLensIndex. branch; exact H.
  - unfold updateDistance. branch; [|exact H].
    cbn [distances set_distances]. apply Forall_lookup_2. intros i x.
    rewrite list_lookup_imap. destruct (distances st !! i) as [y|] eqn:Hy;
      [|discriminate].
    simpl. intros [= <-]. branch.
    + match goal with H : (_ && _) = true |- _ =>
        apply andb_prop in H; destruct H as [_ H]; exact H end.
    + eapply Forall_lookup_1; eassumption.
Qed.

Lemma reachable_distances_valid st :
  reachable st -> Forall distance_valid (distances st).
Proof.
  induction 1 as [|st a _ IH]; [constructor|].
  apply step_distances_valid, IH.
Qed.

Lemma step_distances_invariant st a :
  unique_ids st -> distances_invariant st ->
  (a = AddLens -> (length (lenses st) < 3)%nat) ->
  distances_invariant (step st a).
Proof.
  unfold distances_invariant. intros Hnd Hinv Hcap.
  destruct a as [|id|id p|id n|k d]; cbn [step].
  - rewrite (addLens_below_cap st (Hcap eq_refl)). cbn [lenses distances].
    rewrite length_app. cbn [length].
    destruct (Nat.ltb_spec 0 (length (lenses st)));
      [rewrite length_app; cbn [length]|]; lia.
  - destruct (lens_id_absent_or_present (lenses st) id)
      as [Habs | (j & l & Hj & <-)].
    + rewrite (deleteLens_absent st id Habs). exact Hinv.
    + rewrite (deleteLens_present st j l Hnd Hj). cbn [lenses distances].
      pose proof (lookup_lt_Some _ _ _ Hj) as Hlt.
      rewrite length_delete by (rewrite Hj; eauto).
      destruct (Nat.ltb_spec (S j) (length (lenses st))).
      * rewrite length_delete by (apply lookup_lt_is_Some; lia). lia.
      * rewrite removelast_firstn_len, length_take. lia.
  - unfold updateLensPower. cbn [lenses distances set_lenses].
    rewrite length_fmap. exact Hinv.
  - unfold updateLensIndex. branch; [|exact Hinv].
    cbn [lenses distances set_lenses]. rewrite length_fmap. exact Hinv.
  - unfold updateDistance. branch; [|exact Hinv].
    cbn [lenses distances set_distances]. rewrite length_imap. exact Hinv.
Qed.

(** C1, the code at the cap. [addLens] on the store three [addLens] calls
    built (3 lenses, 2 distances) leaves the lenses and [nextId] alone but
    still appends the default distance 1.0: four calls in a row from the
    empty store yield 3 lenses and 3 distance entries, not 2. *)
Theorem addLens_at_cap_appends_distance :
  length (lenses added3) = 3%nat /\
  length (distances added3) = 2%nat /\
  lenses (addLens added3) = lenses added3 /\
  nextId (addLens added3) = nextId added3 /\
  distances (addLens added3) = distances added3 ++ [1.0%float] /\
  length (lenses (run initial [AddLens; AddLens; AddLens; AddLens])) = 3%nat /\
  length (distances (run initial [AddLens; AddLens; AddLens; AddLens]))
  = 3%nat.
Proof. repeat split. Qed.

(** C2, the code at the cap. The store three [addLens] calls built satisfies
    [len(distances) == max(len(lenses) - 1, 0)] and has unique identifiers,
    and one more [addLens] breaks the invariant (3 lenses, 3 distances).
    Everywhere else the invariant is kept: see [step_distances_invariant]. *)
Theorem distances_invariant_broken_at_cap :
  distances_invariant added3 /\
  unique_ids added3 /\
  ~ distances_invariant (addLens added3).
Proof.
  split; [reflexivity|]. split.
  - apply reachable_unique_ids. unfold added3.
    apply reachable_run. constructor.
  - unfold distances_invariant. vm_compute. discriminate.
Qed.

(** C3. In a store whose lens identifiers are unique, [deleteLens(id)]
    changes nothing when no lens has the identifier; otherwise, with [k] the
    index of the lens that has it, the lens at [k] is removed, and the
    distance entry at index [k] is removed when [k] is not the last index,
    the last distance entry ([removelast], nothing for the empty list) when
    it is. In a chain of three lenses with two distances, removing the last
    lens leaves the first distance and removing the first lens leaves the
    second. *)
Theorem deleteLens_spec (st : Store) (id : Z) :
  unique_ids st ->
  (Forall (fun l => Lens.id l <> id) (lenses st) -> deleteLens st id = st) /\
  (forall k l, lenses st !! k = Some l -> Lens.id l = id ->
     lenses (deleteLens st id) = delete k (lenses st) /\
     nextId (deleteLens st id) = nextId st /\
     ((S k < length (lenses st))%nat ->
        distances (deleteLens st id) = delete k (distances st)) /\
     (S k = length (lenses st) ->
        distances (deleteLens st id) = removelast (distances st))) /\
  (forall l1 l2 l3 d1 d2,
     lenses st = [l1; l2; l3] -> distances st = [d1; d2] ->
     (id = Lens.id l3 ->
        lenses (deleteLens st id) = [l1; l2] /\
        distances (deleteLens st id) = [d1]) /\
     (id = Lens.id l1 ->
        lenses (deleteLens st id) = [l2; l3] /\
        distances (deleteLens st id) = [d2])).
Proof.
  intros Hnd. split; [apply deleteLens_absent|]. split.
  - intros k l Hk <-. rewrite (deleteLens_present st k l Hnd Hk).
    cbn [lenses distances nextId]. repeat split.
    + intros Hlt. destruct (Nat.ltb_spec (S k) (length (lenses st)));
        [reflexivity | lia].
    + intros Hlast. destruct (Nat.ltb_spec (S k) (length (lenses st)));
        [lia | reflexivity].
  - intros l1 l2 l3 d1 d2 Hls Hds. split; intros ->.
    + rewrite (deleteLens_present st 2 l3 Hnd) by (rewrite Hls; reflexivity).
      rewrite Hls, Hds. split; reflexivity.
    + rewrite (deleteLens_present st 0 l1 Hnd) by (rewrite Hls; reflexivity).
      rewrite Hls, Hds. split; reflexivity.
Qed.

Lemma chain3_unique_ids : unique_ids chain3.
Proof.
  unfold unique_ids, chain3. cbn.
  repeat (apply NoDup_cons; split;
          [rewrite ?not_elem_of_cons; repeat split;
           try discriminate; apply not_elem_of_nil|]).
  apply NoDup_nil. reflexivity.
Defined.

Lemma deleteLens_spec_witness :
  unique_ids chain3 /\
  distances (deleteLens chain3 3) = [1.0%float] /\
  distances (deleteLens chain3 1) = [1.5%float] /\
  distances (deleteLens chain3 2) = [1.0%float] /\
  deleteLens chain3 7 = chain3.
Proof.
  pose proof (fun id => deleteLens_spec chain3 id chain3_unique_ids) as H.
  split; [exact chain3_unique_ids|]. split; [|split; [|split]].
  - exact (proj2 (proj1 (proj2 (proj2 (H 3%Z))
                           (new_lens 1) (new_lens 2) (new_lens 3)
                           1.0%float 1.5%float eq_refl eq_refl) eq_refl)).
  - exact (proj2 (proj2 (proj2 (proj2 (H 1%Z))
                           (new_lens 1) (new_lens 2) (new_lens 3)
                           1.0%float 1.5%float eq_refl eq_refl) eq_refl)).
  - apply (proj1 (proj2 (proj2
             (proj1 (proj2 (H 2%Z)) 1%nat (new_lens 2) eq_refl eq_refl)))).
    cbn. constructor.
  - apply (proj1 (H 7%Z)). repeat constructor; discriminate.
Defined.

(** C5. [updateLensPower(id, newPower)] never touches the distances or the
    identifier counter and keeps the number of lenses. If [newPower] equals 0
    or is not above -7.8 ([NaN] included), the store is unchanged, so every
    lens keeps its power and r. Otherwise a lens whose identifier is [id]
    gets [power = newPower] and [r = calcRadius(newPower, index, type)] from
    its own index and type, and every other lens is unchanged. *)
Theorem updateLensPower_spec (st : Store) (id : Z) (newPower : float) :
  distances (updateLensPower st id newPower) = distances st /\
  nextId (updateLensPower st id newPower) = nextId st /\
  length (lenses (updateLensPower st id newPower)) = length (lenses st) /\
  ((newPower =? 0)%float = true \/ (-7.8 <? newPower)%float = false ->
     updateLensPower st id newPower = st) /\
  ((newPower =? 0)%float = false -> (-7.8 <? newPower)%float = true ->
     forall k l, lenses st !! k = Some l ->
       lenses (updateLensPower st id newPower) !! k =
       Some (if (Lens.id l =? id)%Z then
               {| Lens.id := Lens.id l;
                  Lens.power := newPower;
                  Lens.index := Lens.index l;
                  Lens.type := Lens.type l;
                  Lens.r :=
                    Lenses.calcRadius newPower (Lens.index l) (Lens.type l) |}
             else l)).
Proof.
  unfold updateLensPower. cbn [lenses distances nextId set_lenses].
  split; [reflexivity|]. split; [reflexivity|].
  split; [apply length_fmap|]. split.
  - intros Hrej.
    transitivity (set_lenses st (lenses st)); [|apply set_lenses_same].
    f_equal. transitivity ((fun l => l) <$> lenses st); [|apply list_fmap_id].
    apply list_fmap_ext. intros i l _.
    destruct Hrej as [-> | ->]; cbn;
      rewrite ?Bool.andb_false_r; reflexivity.
  - intros Hnz Hlow k l Hk. rewrite list_lookup_fmap, Hk, Hnz, Hlow. cbn.
    rewrite !Bool.andb_true_r. destruct (Lens.id l =? id)%Z; reflexivity.
Qed.

Lemma updateLensPower_spec_witness :
  updateLensPower chain3 2 0 = chain3 /\
  updateLensPower chain3 2 (-7.8) = chain3 /\
  lenses (updateLensPower chain3 2 4) !! 1%nat =
  Some {| Lens.id := 2; Lens.power := 4; Lens.index := 1.5;
          Lens.type := Biconvex; Lens.r := 0.25 |}.
Proof.
  split; [|split].
  - apply (proj1 (proj2 (proj2 (proj2 (updateLensPower_spec chain3 2 0))))).
    left. reflexivity.
  - apply (proj1 (proj2 (proj2 (proj2
             (updateLensPower_spec chain3 2 (-7.8)))))).
    right. reflexivity.
  - exact (proj2 (proj2 (proj2 (proj2 (updateLensPower_spec chain3 2 4))))
             eq_refl eq_refl 1%nat (new_lens 2) eq_refl).
Defined.

(** C6. In every store the actions reach from the empty one, every lens has
    [index >= 1.5], and none has [index < 1.5]. [addLens] below the cap
    appends a lens of index 1.5, and
    [updateLensIndex(id, newIndex)] leaves the store unchanged whenever
    [newIndex < 1.5], and more generally whenever [newIndex >= 1.5] is false
    ([NaN]); [updateLensIndex(id, 1.4)] is such a call. *)
Theorem index_never_below_min :
  (forall st, reachable st -> Forall index_at_least_min (lenses st)) /\
  (forall actions,
     Forall index_at_least_min (lenses (run initial actions))) /\
  (forall st, reachable st ->
     Forall (fun l => (Lens.index l <? 1.5)%float = false) (lenses st)) /\
  (forall st, (length (lenses st) < 3)%nat ->
     exists l, lenses (addLens st) = lenses st ++ [l] /\
               Lens.index l = 1.5%float) /\
  (forall st id newIndex, (newIndex <? 1.5)%float = true ->
     updateLensIndex st id newIndex = st) /\
  (forall st id newIndex, (1.5 <=? newIndex)%float = false ->
     updateLensIndex st id newIndex = st) /\
  (forall st id, updateLensIndex st id 1.4 = st).
Proof.
  split; [exact reachable_index_at_least_min|]. split.
  { intros actions. apply reachable_index_at_least_min, reachable_run.
    constructor. }
  split.
  { intros st Hst. eapply Forall_impl;
      [exact (reachable_index_at_least_min st Hst)|].
    intros l Hl. unfold index_at_least_min in Hl.
    destruct (Lens.index l <? 1.5)%float eqn:Hlt; [|reflexivity].
    apply ltb_true_leb_false in Hlt. congruence. }
  split.
  { intros st Hlen. exists (new_lens (nextId st)).
    rewrite (addLens_below_cap st Hlen). split; reflexivity. }
  split.
  { intros st id n Hn. apply updateLensIndex_rejected.
    apply ltb_true_leb_false, Hn. }
  split; [exact updateLensIndex_rejected|].
  intros st id. apply updateLensIndex_rejected. reflexivity.
Qed.

Lemma index_never_below_min_witness :
  reachable (run initial [AddLens; UpdateLensIndex 1 1.7; AddLens]) /\
  Forall index_at_least_min
    (lenses (run initial [AddLens; UpdateLensIndex 1 1.7; AddLens])) /\
  updateLensIndex chain3 2 1.25 = chain3.
Proof.
  assert (Hr : reachable
                 (run initial [AddLens; UpdateLensIndex 1 1.7; AddLens])).
  { exact (reachable_step _ AddLens
             (reachable_step _ (UpdateLensIndex 1 1.7)
                (reachable_step _ AddLens reachable_initial))). }
  split; [exact Hr|]. split.
  - exact (proj1 index_never_below_min _ Hr).
  - exact (proj1 (proj2 (proj2 (proj2 (proj2 index_never_below_min))))
             chain3 2%Z 1.25%float eq_refl).
Defined.

(** C10. [updateDistance(index, newDistance)] never changes the number of
    distances, nor the lenses or the identifier counter. For an index
    outside [0, len(distances)) the store is unchanged whatever
    [newDistance] is. At any index other than [index] the entry is
    unchanged; the entry at [index] becomes [newDistance] when
    [newDistance] is a number that is at least 0.2, and is unchanged
    otherwise. *)
Theorem updateDistance_frame (st : Store) (index : Z) (newDistance : float) :
  length (distances (updateDistance st index newDistance))
  = length (distances st) /\
  lenses (updateDistance st index newDistance) = lenses st /\
  nextId (updateDistance st index newDistance) = nextId st /\
  (~ (0 <= index < Z.of_nat (length (distances st)))%Z ->
     updateDistance st index newDistance = st) /\
  (forall i, Z.of_nat i <> index ->
     distances (updateDistance st index newDistance) !! i
     = distances st !! i) /\
  (forall i d, Z.of_nat i = index -> distances st !! i = Some d ->
     distances (updateDistance st index newDistance) !! i =
     Some (if negb (Js.isNaN newDistance) && (0.2 <=? newDistance)%float
           then newDistance else d)).
Proof.
  unfold updateDistance.
  destruct (negb (Js.isNaN newDistance) && (0.2 <=? newDistance)%float);
    cbn [lenses distances nextId set_distances].
  - split; [apply length_imap|]. split; [reflexivity|].
    split; [reflexivity|]. split; [|split].
    + intros Hout.
      transitivity (set_distances st (distances st));
        [|apply set_distances_same].
      f_equal. apply list_eq. intros i. rewrite list_lookup_imap.
      destruct (distances st !! i) as [d|] eqn:Hi; [|reflexivity].
      apply lookup_lt_Some in Hi. cbn.
      destruct (Z.eqb_spec (Z.of_nat i) index); [lia | reflexivity].
    + intros i Hi. rewrite list_lookup_imap.
      destruct (distances st !! i) as [d|]; [|reflexivity]. cbn.
      destruct (Z.eqb_spec (Z.of_nat i) index); [lia | reflexivity].
    + intros i d Hi Hd. rewrite list_lookup_imap, Hd. cbn.
      destruct (Z.eqb_spec (Z.of_nat i) index); [reflexivity | lia].
  - repeat split; auto.
Qed.

Lemma updateDistance_frame_witness :
  updateDistance chain3 2 0.5 = chain3 /\
  updateDistance chain3 (-1) 0.5 = chain3 /\
  distances (updateDistance chain3 1 0.5) !! 0%nat = Some 1.0%float /\
  distances (updateDistance chain3 1 0.5) !! 1%nat = Some 0.5%float.
Proof.
  split; [|split; [|split]].
  - apply (proj1 (proj2 (proj2 (proj2 (updateDistance_frame chain3 2 0.5))))).
    cbn. intros [_ H]. exact (Z.lt_irrefl _ H).
  - apply (proj1 (proj2 (proj2 (proj2
             (updateDistance_frame chain3 (-1) 0.5))))).
    cbn. intros [H _]. exact (H eq_refl).
  - apply (proj1 (proj2 (proj2 (proj2 (proj2
             (updateDistance_frame chain3 1 0.5))))) 0%nat).
    discriminate.
  - exact (proj2 (proj2 (proj2 (proj2 (proj2
             (updateDistance_frame chain3 1 0.5))))) 1%nat 1.5%float
             eq_refl eq_refl).
Defined.

End LensCollection.

(* ================================================================== *)
(** * The axial layout *)

Section AxialLayout.

Import Renderer.

Lemma or_default_truthy (ds : list float) (i : nat) :
  Forall (fun d => Js.truthy d = true) ds ->
  Js.or_default (ds !! i) 1.0 = default 1.0%float (ds !! i).
Proof.
  intros H. destruct (ds !! i) as [d|] eqn:Hi; [|reflexivity].
  cbn. rewrite (Forall_lookup_1 _ _ _ _ H Hi). reflexivity.
Qed.

Lemma fold_left_terms {A} (f : A -> float) (l : list A) (acc : float) :
  fold_left (fun a t => (a + t)%float) (f <$> l) acc
  = fold_left (fun a i => (a + f i)%float) l acc.
Proof.
  revert acc. induction l as [|x l IH]; intros acc; [reflexivity|].
  cbn. apply IH.
Qed.

Lemma calculateLensX_positionOf (ds : list float) (k : nat) :
  Forall (fun d => Js.truthy d = true) ds ->
  calculateLensX ds k = Spec.positionOf ds k.
Proof.
  intros H. unfold calculateLensX, Spec.positionOf.
  destruct (Nat.eqb_spec k 0) as [->|_]; [reflexivity|].
  unfold Js.for_upto. rewrite fold_left_terms.
  unfold Spec.start. generalize 200%float as acc.
  generalize (seq 0 k) as l. induction l as [|i l IH]; intros acc;
    [reflexivity|].
  cbn [fold_left]. rewrite or_default_truthy by exact H. apply IH.
Qed.

Lemma valid_distances_truthy (ds : list float) :
  Forall Config.distance_valid ds -> Forall (fun d => Js.truthy d = true) ds.
Proof.
  intros H. eapply Forall_impl; [exact H | exact distance_valid_truthy].
Qed.

(** The fallback of [distances[i] || 1.0] also replaces an entry that is 0
    (or [NaN]), which the data model excludes: there the layout and the
    prefix sum differ. *)
Example calculateLensX_zero_distance :
  calculateLensX [0%float] 1 = 400%float /\
  Spec.positionOf [0%float] 1 = 200%float.
Proof. split; reflexivity. Qed.

(** C7. [calculateLensX(0)] is 200 whatever the distances are. For
    distances as the data model has them (every entry at least 0.2; more
    generally every entry a non-zero number), as they are in every store
    the actions reach, [calculateLensX(k)] is 200 plus the terms
    [distances[i] * 200] for [i < k], added in sequence order, an entry
    missing from the array counting as 1.0; for the distances [1.0, 1.5] the
    position of index 2 is 200 + 1.0*200 + 1.5*200 = 700. *)
Theorem calculateLensX_prefix_sum :
  (forall distances, calculateLensX distances 0 = 200%float) /\
  (forall distances k,
     Forall (fun d => Js.truthy d = true) distances ->
     calculateLensX distances k = Spec.positionOf distances k) /\
  (forall distances k,
     Forall Config.distance_valid distances ->
     calculateLensX distances k = Spec.positionOf distances k) /\
  (forall st k,
     Config.reachable st ->
     calculateLensX (Config.distances st) k
     = Spec.positionOf (Config.distances st) k) /\
  Spec.positionOf [1.0; 1.5]%float 2 = (200 + 1.0 * 200 + 1.5 * 200)%float /\
  calculateLensX [1.0; 1.5]%float 2 = 700%float.
Proof.
  split; [reflexivity|]. split; [exact calculateLensX_positionOf|].
  split; [|split; [|split; reflexivity]].
  - intros ds k H.
    apply calculateLensX_positionOf, valid_distances_truthy, H.
  - intros st k H.
    apply calculateLensX_positionOf, valid_distances_truthy,
      reachable_distances_valid, H.
Qed.

Lemma calculateLensX_prefix_sum_witness :
  Forall Config.distance_valid [1.0; 1.5]%float /\
  calculateLensX [1.0; 1.5]%float 2 = Spec.positionOf [1.0; 1.5]%float 2 /\
  calculateLensX [1.0; 1.5]%float 3 = Spec.positionOf [1.0; 1.5]%float 3.
Proof.
  assert (H : Forall Config.distance_valid [1.0; 1.5]%float).
  { apply Forall_cons; split; [reflexivity|].
    apply Forall_cons; split; [reflexivity|]. apply Forall_nil. exact I. }
  split; [exact H|]. split.
  - exact (proj1 (proj2 (proj2 calculateLensX_prefix_sum)) _ 2%nat H).
  - exact (proj1 (proj2 (proj2 calculateLensX_prefix_sum)) _ 3%nat H).
Defined.

End AxialLayout.

(* ================================================================== *)
(** * The ray trace *)

Section RayTrace.

Import Renderer.

Variable numberToString : float -> string.
Variable dimensions : Dimensions.
Variable distances : list float.

Lemma forEach_trace_from (lenses : list Lens.t) (i : nat) (s : RayState) :
  let s' :=
    Js.forEach_from (trace_lens numberToString dimensions distances)
      i lenses s in
  let endX := Js.Math_max (width dimensions) (currentX s' + 100)%float in
  let finalY :=
    (currentYPos s' + currentSlope s' * (endX - currentX s'))%float in
  (pathData s' ++
   (" L " ++ numberToString endX ++ " " ++ numberToString finalY))%string
  = fold_left
      (fun acc p => (acc ++ Spec.render_line numberToString p)%string)
      (Spec.trace_from (width dimensions) (centerY dimensions)
         (calculateLensX distances)
         i (currentX s) (currentYPos s) (currentSlope s) lenses)
      (pathData s).
Proof.
  revert i s. induction lenses as [|lens rest IH]; intros i s.
  - reflexivity.
  - cbn [Js.forEach_from]. cbv zeta in IH |- *. rewrite IH. reflexivity.
Qed.

Lemma trace_from_length canvasRight centerAxisY position
    (lenses : list Lens.t) i x y slope :
  length (Spec.trace_from canvasRight centerAxisY position i x y slope lenses)
  = S (length lenses).
Proof.
  revert i x y slope. induction lenses as [|lens rest IH]; intros; cbn;
    [reflexivity|].
  f_equal. apply IH.
Qed.

Lemma trace_empty_straight canvasRight centerAxisY position startHeight :
  PrimFloat.is_finite canvasRight = true -> startHeight <> neg_zero ->
  Spec.trace canvasRight centerAxisY position startHeight []
  = [ (0%float, startHeight);
      (Js.Math_max canvasRight 100, startHeight) ].
Proof.
  intros Hw Hy. unfold Spec.trace. cbn [Spec.trace_from].
  change (0 + 100)%float with 100%float.
  rewrite add_zero_mul_finite; [reflexivity | | exact Hy].
  apply Math_max_finite; [exact Hw | reflexivity].
Qed.

(** C8. The path text [simpleRayTrace] builds is the rendering of the
    polyline [Spec.trace]: the fold that starts at x = 0, y = startY with
    slope 0 and, at each lens in order, advances y by the slope times the
    distance to the lens position, records that crossing point, and adds
    [-((y - centerY) / 200) * power * 0.1] to the slope, and that ends with
    the point at [max(width, x + 100)] reached at the final slope. The
    polyline of [n] lenses has [n + 2] points. For no lens, a canvas of
    finite width and a start height other than [-0], it is the horizontal
    segment from [(0, startY)] to [(max(width, 100), startY)]. *)
Theorem simpleRayTrace_is_trace (startY : float) (lenses : list Lens.t) :
  simpleRayTrace numberToString dimensions distances startY lenses
  = Spec.render numberToString
      (Spec.trace (width dimensions) (centerY dimensions)
         (calculateLensX distances) startY lenses) /\
  length (Spec.trace (width dimensions) (centerY dimensions)
            (calculateLensX distances) startY lenses)
  = (length lenses + 2)%nat /\
  (PrimFloat.is_finite (width dimensions) = true -> startY <> neg_zero ->
   Spec.trace (width dimensions) (centerY dimensions)
     (calculateLensX distances) startY []
   = [ (0%float, startY);
       (Js.Math_max (width dimensions) 100, startY) ] /\
   simpleRayTrace numberToString dimensions distances startY []
   = (("M 0 " ++ numberToString startY) ++
      (" L " ++ numberToString (Js.Math_max (width dimensions) 100) ++
       " " ++ numberToString startY))%string).
Proof.
  assert (Hrender : forall ls,
    simpleRayTrace numberToString dimensions distances startY ls
    = Spec.render numberToString
        (Spec.trace (width dimensions) (centerY dimensions)
           (calculateLensX distances) startY ls)).
  { intros ls. unfold simpleRayTrace, Js.forEach.
    cbv zeta. rewrite (forEach_trace_from ls 0). reflexivity. }
  split; [apply Hrender|]. split.
  - unfold Spec.trace. cbn [length]. rewrite trace_from_length. lia.
  - intros Hw Hy. split; [apply trace_empty_straight; assumption|].
    rewrite Hrender, trace_empty_straight by assumption. reflexivity.
Qed.

End RayTrace.

Lemma simpleRayTrace_is_trace_witness :
  PrimFloat.is_finite (Renderer.width Renderer.initialDimensions) = true /\
  150%float <> neg_zero /\
  Spec.trace 800 200 (Renderer.calculateLensX []) 150 []
  = [ (0%float, 150%float); (800%float, 150%float) ].
Proof.
  split; [reflexivity|]. split; [discriminate|].
  exact (proj1 (proj2 (proj2
           (simpleRayTrace_is_trace (fun _ => "#"%string)
              Renderer.initialDimensions [] 150%float []))
           eq_refl (fun E => eq_ind 150%float
                               (fun x => if PrimFloat.is_zero x then False
                                         else True) I _ E))).
Defined.

(* ================================================================== *)
(** * Invariants of the stores the actions reach *)

Section ReachableStores.

Import Config.

Lemma run_reachable (actions : list Action) : reachable (run initial actions).
Proof. apply reachable_run. constructor. Qed.

Lemma filter_bool_length {A} (p : A -> bool) (l : list A) :
  (length (List.filter p l) <= length l)%nat.
Proof. apply sublist_length, filter_bool_sublist. Qed.

Lemma step_lens_count st a :
  (length (lenses st) <= 3)%nat -> (length (lenses (step st a)) <= 3)%nat.
Proof.
  intros H. destruct a as [|id|id p|id n|k d]; cbn [step].
  - destruct (Nat.lt_ge_cases (length (lenses st)) 3) as [Hlt|Hge].
    + rewrite (addLens_below_cap st Hlt). cbn [lenses].
      rewrite length_app. cbn [length]. lia.
    + rewrite (addLens_at_cap st Hge). exact H.
  - rewrite deleteLens_lenses.
    pose proof (filter_bool_length
                  (fun l => negb (Lens.id l =? id)%Z) (lenses st)). lia.
  - unfold updateLensPower. cbn [lenses set_lenses].
    rewrite length_fmap. exact H.
  - unfold updateLensIndex. branch; [|exact H].
    cbn [lenses set_lenses]. rewrite length_fmap. exact H.
  - unfold updateDistance. branch; exact H.
Qed.


(** X1. Whatever actions are run from the empty store, with whatever
    arguments, the collection never holds more than 3 lenses. *)
Theorem lens_count_never_exceeds_cap (actions : list Action) :
  (length (lenses (run initial actions)) <= 3)%nat.
Proof.
  induction (run_reachable actions) as [|st a _ IH]; [cbn; lia|].
  apply step_lens_count, IH.
Qed.


(** X3. In every store the actions reach, every distance is a number that
    is at least 0.2: [addLens] appends 1.0 and [updateDistance] rejects
    [NaN] and anything below 0.2. *)
Theorem distances_never_below_min (actions : list Action) :
  Forall (fun d => (0.2 <=? d)%float = true /\ Js.isNaN d = false)
    (distances (run initial actions)).
Proof.
  eapply Forall_impl;
    [exact (reachable_distances_valid _ (run_reachable actions))|].
  intros d Hd. split; [exact Hd|].
  exact (leb_true_not_nan _ _ Hd).
Qed.

End ReachableStores.

Section LensInvariant.

Import Config.

Variable P : Lens.t -> Prop.

Hypothesis P_new : forall id, P (new_lens id).

Hypothesis P_power : forall l p,
  P l -> (p =? 0)%float = false -> (-7.8 <? p)%float = true ->
  P (Lens.with_power_r l p
       (Lenses.calcRadius p (Lens.index l) (Lens.type l))).

Hypothesis P_index : forall l n,
  P l -> (1.5 <=? n)%float = true ->
  P (Lens.with_index_r l n
       (Lenses.calcRadius (Lens.power l) n (Lens.type l))).

Lemma step_lens_invariant st a :
  Forall P (lenses st) -> Forall P (lenses (step st a)).
Proof.
  intros H. destruct a as [|id|id p|id n|k d]; cbn [step].
  - unfold addLens. repeat branch; cbn [lenses set_distances];
      try exact H; (apply Forall_app; split; [exact H|]);
      repeat constructor; apply P_new.
  - rewrite deleteLens_lenses. apply Forall_filter_bool, H.
  - unfold updateLensPower. cbn [lenses set_lenses].
    apply Forall_fmap. eapply Forall_impl; [exact H|]. intros l Hl.
    unfold compose.
    destruct (Lens.id l =? id)%Z; [|exact Hl].
    destruct (p =? 0)%float eqn:Hz; [exact Hl|].
    destruct (-7.8 <? p)%float eqn:Hlow; [|exact Hl].
    cbn. apply P_power; assumption.
  - unfold updateLensIndex.
    destruct (1.5 <=? n)%float eqn:Hn; [|exact H].
    cbn [lenses set_lenses].
    apply Forall_fmap. eapply Forall_impl; [exact H|]. intros l Hl.
    unfold compose. destruct (Lens.id l =? id)%Z; [|exact Hl].
    apply P_index; assumption.
  - unfold updateDistance. branch; exact H.
Qed.

Lemma run_lens_invariant (actions : list Action) :
  Forall P (lenses (run initial actions)).
Proof.
  induction (run_reachable actions) as [|st a _ IH]; [constructor|].
  apply step_lens_invariant, IH.
Qed.

End LensInvariant.

Section LensFields.

Import Config.

(** X4. In every store the actions reach, the derived field of every lens
    is up to date: [r] is [calcRadius(power, index, type)] of the lens's own
    fields, which is [2 * (index - 1) / power] since no power is 0. *)
Theorem radius_stays_derived (actions : list Action) :
  Forall (fun l =>
            Lens.r l
            = Lenses.calcRadius (Lens.power l) (Lens.index l) (Lens.type l)
            /\ Lens.r l = (2 * (Lens.index l - 1) / Lens.power l)%float)
    (lenses (run initial actions)).
Proof.
  eapply Forall_impl.
  - apply (run_lens_invariant
             (fun l => (Lens.power l =? 0)%float = false /\
                       Lens.r l = Lenses.calcRadius (Lens.power l)
                                    (Lens.index l) (Lens.type l))).
    + intros id. split; reflexivity.
    + intros l p _ Hz _. split; [exact Hz | reflexivity].
    + intros l n [Hz _] _. split; [exact Hz | reflexivity].
  - cbn beta. intros l [Hz Hr]. split; [exact Hr|].
    rewrite Hr. apply calcRadius_nonzero, Hz.
Qed.

(** X5. In every store the actions reach, every lens has a power that is a
    number, not 0 and above -7.8, and the type biconvex: no mutation changes
    the type. *)
Theorem power_and_type_stay_valid (actions : list Action) :
  Forall (fun l =>
            (Lens.power l =? 0)%float = false /\
            (-7.8 <? Lens.power l)%float = true /\
            Js.isNaN (Lens.power l) = false /\
            Lens.type l = Biconvex)
    (lenses (run initial actions)).
Proof.
  eapply Forall_impl.
  - apply (run_lens_invariant
             (fun l => (Lens.power l =? 0)%float = false /\
                       (-7.8 <? Lens.power l)%float = true /\
                       Lens.type l = Biconvex)).
    + intros id. repeat split.
    + intros l p (_ & _ & Ht) Hz Hlow. repeat split; assumption.
    + intros l n H _. exact H.
  - cbn beta. intros l (Hz & Hlow & Ht). repeat split; try assumption.
    apply (leb_true_not_nan (-7.8)%float).
    revert Hlow. rewrite ltb_spec, leb_spec. unfold SFltb, SFleb.
    destruct (SFcompare _ _) as [[]|]; congruence.
Qed.

End LensFields.

(* ================================================================== *)
(** * The add button and the invariant of the distances *)

Section AddButton.

Import Config ConfigUi.

Lemma fold_left_invariant {S A} (I : S -> Prop) (f : S -> A -> S)
    (l : list A) (s : S) :
  I s -> (forall s a, I s -> I (f s a)) -> I (fold_left f l s).
Proof.
  intros Hs Hstep. revert s Hs.
  induction l as [|a l IH]; intros s Hs; [exact Hs|].
  cbn. apply IH, Hstep, Hs.
Qed.

Lemma ui_step_cases st a :
  ui_step st a = st \/
  (ui_step st a = step st a /\
   (a = AddLens -> (length (lenses st) < 3)%nat)).
Proof.
  destruct a; try (right; split; [reflexivity | discriminate]).
  cbn [ui_step]. unfold onAddClick, add_disabled.
  destruct (Nat.leb_spec 3 (length (lenses st))); [left; reflexivity|].
  right. split; [reflexivity | intros _; assumption].
Qed.

(** X6. Through the add button, which is disabled at 3 lenses, the defect
    of [addLens] at the cap is out of reach: after any user actions from the
    empty store, [len(distances) == max(len(lenses) - 1, 0)] holds, the
    collection has at most 3 lenses and the identifiers are distinct. *)
Theorem add_button_keeps_distances_invariant (actions : list Action) :
  distances_invariant (ui_run initial actions) /\
  (length (lenses (ui_run initial actions)) <= 3)%nat /\
  unique_ids (ui_run initial actions).
Proof.
  cut ((unique_ids (ui_run initial actions) /\
        ids_fresh (ui_run initial actions)) /\
       distances_invariant (ui_run initial actions) /\
       (length (lenses (ui_run initial actions)) <= 3)%nat); [tauto|].
  unfold ui_run. apply fold_left_invariant.
  - repeat split; try constructor. cbn. lia.
  - intros st a (Hids & Hinv & Hcap).
    destruct (ui_step_cases st a) as [-> | [-> Hadd]]; [tauto|].
    split; [apply step_unique_ids, Hids|]. split.
    + apply step_distances_invariant; [tauto | exact Hinv | exact Hadd].
    + apply step_lens_count, Hcap.
Qed.

End AddButton.

(* ================================================================== *)
(** * How the mutations compose *)

Section Composition.

Import Config.

Lemma findIndex_from_lower_bound {A} (p : A -> bool) i (l : list A) :
  Js.findIndex_from p i l = (-1)%Z \/
  (i <= Js.findIndex_from p i l < i + Z.of_nat (length l))%Z.
Proof.
  revert i. induction l as [|x l IH]; intros i; cbn; [left; reflexivity|].
  destruct (p x); [right; lia|].
  destruct (IH (i + 1)%Z) as [-> | H]; [left; reflexivity | right; lia].
Qed.

Lemma filter_from_length {A} (p : A -> nat -> bool) i (l : list A) :
  (length (Js.filter_from p i l) <= length l)%nat.
Proof.
  revert i. induction l as [|x l IH]; intros i; cbn; [lia|].
  specialize (IH (S i)). destruct (p x i); cbn; lia.
Qed.

Lemma delete_length_bounds {A} (k : nat) (l : list A) :
  (length (delete k l) <= length l <= S (length (delete k l)))%nat.
Proof.
  revert k. induction l as [|x l IH]; intros k; [destruct k; simpl; lia|].
  destruct k as [|k]; simpl; [lia|]. specialize (IH k). lia.
Qed.

Lemma deleteLens_distances_length st id :
  (length (distances (deleteLens st id)) <= length (distances st)
   <= S (length (distances (deleteLens st id))))%nat.
Proof.
  unfold deleteLens. cbn [lenses distances set_lenses set_distances].
  set (k := Js.findIndex _ _). branch.
  - cbn [distances set_distances]. unfold Js.filteri.
    destruct (findIndex_from_lower_bound
                (fun l => (Lens.id l =? id)%Z) 0 (lenses st)) as [E | E];
      fold (Js.findIndex (fun l => (Lens.id l =? id)%Z) (lenses st)) in E;
      fold k in E.
    + rewrite filter_from_negative by lia. lia.
    + replace k with (Z.of_nat (0 + Z.to_nat k)) by lia.
      rewrite filter_from_delete. apply delete_length_bounds.
  - branch; cbn [distances set_distances set_lenses]; [|lia].
    rewrite slice_drop_last, removelast_firstn_len, length_take. lia.
Qed.

(** X7. Whatever the store, after [deleteLens(id)] no lens has identifier
    [id], every other lens is still there in the same order, and [nextId] is
    unchanged; deleting the same id again changes nothing; and the call
    removes at most one distance entry. *)
Theorem deleteLens_removes_id (st : Store) (id : Z) :
  Forall (fun l => Lens.id l <> id) (lenses (deleteLens st id)) /\
  (forall l, l ∈ lenses st -> Lens.id l <> id ->
             l ∈ lenses (deleteLens st id)) /\
  sublist (lenses (deleteLens st id)) (lenses st) /\
  deleteLens (deleteLens st id) id = deleteLens st id /\
  nextId (deleteLens st id) = nextId st /\
  (length (distances (deleteLens st id)) <= length (distances st)
   <= S (length (distances (deleteLens st id))))%nat.
Proof.
  assert (Hgone : Forall (fun l => Lens.id l <> id)
                    (lenses (deleteLens st id))).
  { rewrite deleteLens_lenses. apply Forall_forall. intros l Hl.
    apply list_elem_of_In, filter_In in Hl as [_ Hl].
    apply Bool.negb_true_iff, Z.eqb_neq in Hl. exact Hl. }
  split; [exact Hgone|]. split; [|split; [|split; [|split]]].
  - intros l Hl Hid. rewrite deleteLens_lenses.
    apply list_elem_of_In, filter_In. split; [apply list_elem_of_In, Hl|].
    apply Bool.negb_true_iff, Z.eqb_neq, Hid.
  - rewrite deleteLens_lenses. apply filter_bool_sublist.
  - apply deleteLens_absent, Hgone.
  - apply deleteLens_nextId.
  - apply deleteLens_distances_length.
Qed.

(** X8. [updateLensPower] and [updateLensIndex] commute, for any
    identifiers and values, the same lens included: [r] is recomputed from
    the lens's current fields by whichever runs second. *)
Theorem updateLensPower_updateLensIndex_commute (st : Store)
    (id1 id2 : Z) (newPower newIndex : float) :
  updateLensIndex (updateLensPower st id1 newPower) id2 newIndex
  = updateLensPower (updateLensIndex st id2 newIndex) id1 newPower.
Proof.
  unfold updateLensIndex, updateLensPower.
  destruct (1.5 <=? newIndex)%float; [|reflexivity].
  cbn [lenses set_lenses distances nextId]. unfold set_lenses. f_equal.
  rewrite <- !list_fmap_compose. apply list_fmap_ext. intros i l _.
  unfold compose.
  destruct ((Lens.id l =? id1)%Z && negb (newPower =? 0)%float
            && (-7.8 <? newPower)%float) eqn:Hp;
    destruct (Lens.id l =? id2)%Z eqn:Hi; cbn;
    rewrite ?Hp, ?Hi; reflexivity.
Qed.

(** X9. Below the cap, in a store whose identifiers are below [nextId]
    and whose distances satisfy the invariant, deleting the lens that
    [addLens] just appended restores the lenses and the distances; only
    [nextId] has advanced. *)
Theorem addLens_deleteLens_round_trip (st : Store) :
  (length (lenses st) < 3)%nat -> ids_fresh st -> distances_invariant st ->
  deleteLens (addLens st) (nextId st)
  = {| lenses := lenses st;
       distances := distances st;
       nextId := (nextId st + 1)%Z |}.
Proof.
  intros Hlen Hfresh Hinv. rewrite (addLens_below_cap st Hlen).
  assert (Hold : Forall (fun l => (Lens.id l =? nextId st)%Z = false)
                   (lenses st)).
  { eapply Forall_impl; [exact Hfresh|]. cbn beta. intros l Hl.
    apply Z.eqb_neq. lia. }
  unfold deleteLens. cbn [lenses distances nextId set_lenses set_distances].
  assert (Hfilter :
    List.filter (fun l => negb (Lens.id l =? nextId st)%Z)
      (lenses st ++ [new_lens (nextId st)]) = lenses st).
  { rewrite List.filter_app. cbn. rewrite Z.eqb_refl. cbn.
    rewrite app_nil_r. apply filter_keep_all.
    eapply Forall_impl; [exact Hold|]. cbn beta. intros l ->. reflexivity. }
  assert (Hfind :
    Js.findIndex (fun l => (Lens.id l =? nextId st)%Z)
      (lenses st ++ [new_lens (nextId st)])
    = Z.of_nat (length (lenses st))).
  { unfold Js.findIndex.
    rewrite (findIndex_from_first _ 0 _ (length (lenses st))
               (new_lens (nextId st))).
    - lia.
    - rewrite lookup_app_r by lia. rewrite Nat.sub_diag. reflexivity.
    - apply Z.eqb_refl.
    - intros j y Hj Hy. rewrite lookup_app_l in Hy by exact Hj.
      exact (Forall_lookup_1 _ _ _ _ Hold Hy). }
  rewrite Hfilter, Hfind, Z.ltb_irrefl.
  unfold distances_invariant in Hinv.
  destruct (Nat.ltb_spec 0 (length (lenses st))) as [Hpos|Hzero].
  - rewrite length_app. cbn [length].
    destruct (Nat.ltb_spec 0 (length (distances st) + 1)); [|lia].
    cbn [lenses distances nextId set_distances].
    rewrite slice_drop_last, removelast_last. reflexivity.
  - destruct (distances st) as [|d ds] eqn:Hd; [reflexivity|].
    cbn [length] in Hinv. lia.
Qed.

Lemma addLens_deleteLens_round_trip_witness :
  deleteLens (addLens (run initial [AddLens; AddLens])) 3
  = {| lenses := [new_lens 1; new_lens 2];
       distances := [1.0%float];
       nextId := 4 |}.
Proof.
  apply (addLens_deleteLens_round_trip (run initial [AddLens; AddLens])).
  - cbn. constructor.
  - repeat constructor.
  - reflexivity.
Defined.

(** X10. [updateLensPower] and [updateLensIndex] never add, remove,
    reorder or re-identify lenses: the sequences of identifiers and of types
    are unchanged, the former keeps every index and the latter every power,
    and [updateLensIndex] leaves the distances and [nextId] alone. *)
Theorem updates_keep_lens_identity (st : Store) (id : Z) (v : float) :
  (Lens.id <$> lenses (updateLensPower st id v) = Lens.id <$> lenses st /\
   Lens.type <$> lenses (updateLensPower st id v) = Lens.type <$> lenses st /\
   Lens.index <$> lenses (updateLensPower st id v)
   = Lens.index <$> lenses st) /\
  (Lens.id <$> lenses (updateLensIndex st id v) = Lens.id <$> lenses st /\
   Lens.type <$> lenses (updateLensIndex st id v) = Lens.type <$> lenses st /\
   Lens.power <$> lenses (updateLensIndex st id v)
   = Lens.power <$> lenses st /\
   distances (updateLensIndex st id v) = distances st /\
   nextId (updateLensIndex st id v) = nextId st).
Proof.
  assert (Hmap : forall (B : Type) (f : Lens.t -> B) (g : Lens.t -> Lens.t),
            (forall l, f (g l) = f l) ->
            f <$> (g <$> lenses st) = f <$> lenses st).
  { intros B f g Hg. rewrite <- list_fmap_compose. apply list_fmap_ext.
    intros i l _. apply Hg. }
  split.
  - unfold updateLensPower. cbn [lenses set_lenses].
    split; [|split]; apply Hmap; intros l; branch; reflexivity.
  - unfold updateLensIndex. branch; [|repeat split].
    cbn [lenses distances nextId set_lenses].
    split; [|split; [|split; [|split]]]; try reflexivity;
      apply Hmap; intros l; branch; reflexivity.
Qed.

End Composition.

(* ================================================================== *)
(** * More facts about binary64 values *)

Section MoreFloatFacts.

Lemma SFcompare_refl (a : spec_float) :
  a <> S754_nan -> SFcompare a a = Some Eq.
Proof.
  destruct a as [s|s| |s m e]; cbn; try congruence; intros _;
    destruct s; try reflexivity;
    rewrite Z.compare_refl, Pos.compare_cont_refl; reflexivity.
Qed.

Lemma isNaN_false_spec (a : float) :
  Js.isNaN a = false -> Prim2SF a <> S754_nan.
Proof.
  unfold Js.isNaN, PrimFloat.is_nan. rewrite FloatAxioms.eqb_spec.
  intros H E. rewrite E in H. discriminate H.
Qed.

Lemma isNaN_true_nan (a : float) : Js.isNaN a = true -> a = nan.
Proof.
  unfold Js.isNaN, PrimFloat.is_nan. rewrite FloatAxioms.eqb_spec.
  intros H. apply Prim2SF_inj.
  destruct (Prim2SF a) as [s|s| |s m e] eqn:E; try reflexivity;
    exfalso; unfold SFeqb in H; rewrite SFcompare_refl in H;
    discriminate.
Qed.

Lemma SFcompare_defined (a b : spec_float) :
  a <> S754_nan -> b <> S754_nan -> exists c, SFcompare a b = Some c.
Proof.
  destruct a as [sa|sa| |sa ma ea], b as [sb|sb| |sb mb eb]; cbn;
    try congruence; eauto.
Qed.

Lemma leb_refl (a : float) : Js.isNaN a = false -> (a <=? a)%float = true.
Proof.
  intros H. rewrite leb_spec. unfold SFleb.
  rewrite SFcompare_refl by exact (isNaN_false_spec a H). reflexivity.
Qed.

Lemma ltb_leb (a b : float) : (a <? b)%float = true -> (a <=? b)%float = true.
Proof.
  rewrite ltb_spec, leb_spec. unfold SFltb, SFleb.
  destruct (SFcompare _ _) as [[]|]; congruence.
Qed.

Lemma Math_max_same (a : float) : Js.Math_max a a = a.
Proof.
  unfold Js.Math_max. destruct (Js.isNaN a) eqn:Hn.
  - symmetry. apply isNaN_true_nan, Hn.
  - cbn [orb]. repeat branch; reflexivity.
Qed.

Lemma Math_max_upper (a b : float) :
  Js.isNaN a = false -> Js.isNaN b = false ->
  (a <=? Js.Math_max a b)%float = true /\
  (b <=? Js.Math_max a b)%float = true.
Proof.
  intros Ha Hb. unfold Js.Math_max. rewrite Ha, Hb. cbn [orb].
  destruct (a <? b)%float eqn:Hab;
    [split; [apply ltb_leb, Hab | apply leb_refl, Hb]|].
  destruct (b <? a)%float eqn:Hba;
    [split; [apply leb_refl, Ha | apply ltb_leb, Hba]|].
  assert (Heq : (a <=? b)%float = true /\ (b <=? a)%float = true).
  { revert Hab Hba. rewrite !ltb_spec, !leb_spec. unfold SFltb, SFleb.
    rewrite (SFcompare_swap (Prim2SF a) (Prim2SF b)).
    destruct (SFcompare_defined (Prim2SF a) (Prim2SF b)
                (isNaN_false_spec a Ha) (isNaN_false_spec b Hb))
      as [c ->].
    destruct c; cbn; intros; split; congruence. }
  destruct (get_sign a); split; try tauto; apply leb_refl; assumption.
Qed.

Lemma sub_self_zero (c : float) :
  PrimFloat.is_finite c = true -> (c - c)%float = 0%float.
Proof.
  intros Hc. apply Prim2SF_inj. rewrite sub_spec.
  apply is_finite_SF_finite in Hc.
  destruct (Prim2SF c) as [s|s| |s m e]; cbn in Hc; try contradiction.
  - destruct s; reflexivity.
  - unfold SF64sub, SFsub. rewrite Z.sub_diag. reflexivity.
Qed.

Lemma deflection_on_axis (p c : float) :
  PrimFloat.is_finite p = true -> PrimFloat.is_finite c = true ->
  c <> neg_zero ->
  (c - p * (c - c) * 0.25)%float = c.
Proof.
  intros Hp Hc Hz. rewrite (sub_self_zero c Hc).
  apply Prim2SF_inj. rewrite sub_spec, !mul_spec.
  apply is_finite_SF_finite in Hp. apply is_finite_SF_finite in Hc.
  assert (Hz' : Prim2SF c <> S754_zero true).
  { intros E. apply Hz, Prim2SF_inj. exact E. }
  change (Prim2SF 0) with (S754_zero false).
  change (Prim2SF 0.25) with (S754_finite false 4503599627370496 (-54)).
  destruct (Prim2SF p) as [sp|sp| |sp mp ep]; cbn in Hp; try contradiction;
    destruct (Prim2SF c) as [sc|sc| |sc mc ec]; cbn in Hc;
    try contradiction;
    destruct sp, sc; try reflexivity; congruence.
Qed.

Lemma string_app_assoc (a b c : string) :
  ((a ++ b) ++ c)%string = (a ++ (b ++ c))%string.
Proof.
  induction a as [|x a IH]; cbn; [reflexivity | rewrite IH; reflexivity].
Qed.

End MoreFloatFacts.

(* ================================================================== *)
(** * The view box and the first segment of a ray *)

Section ViewBox.

Import Renderer View.

(** X11. With no lens to render (none has a truthy [r]) the view box is
    exactly as wide as the canvas. Otherwise, when the canvas width and
    [lastLensX] are numbers, the view box is at least as wide as the canvas
    and reaches [lastLensX], 100 units past the last rendered lens. *)
Theorem viewBoxWidth_covers (dimensions : Dimensions)
    (distances : list float) (lenses : list Lens.t) :
  (currentLenses lenses = [] ->
   viewBoxWidth dimensions distances lenses = width dimensions) /\
  (Js.isNaN (width dimensions) = false ->
   Js.isNaN (lastLensX dimensions distances lenses) = false ->
   (width dimensions <=? viewBoxWidth dimensions distances lenses)%float
   = true /\
   (lastLensX dimensions distances lenses
    <=? viewBoxWidth dimensions distances lenses)%float = true).
Proof.
  split.
  - intros Hnone. unfold viewBoxWidth, lastLensX. rewrite Hnone. cbn.
    apply Math_max_same.
  - intros Hw Hl. apply Math_max_upper; assumption.
Qed.

Lemma viewBoxWidth_covers_witness :
  (800 <=? viewBoxWidth initialDimensions [1.0%float]
             (Config.lenses Config.added3))%float = true /\
  (700 <=? viewBoxWidth initialDimensions [1.0%float]
             (Config.lenses Config.added3))%float = true.
Proof.
  exact (proj2 (viewBoxWidth_covers initialDimensions [1.0%float]
                  (Config.lenses Config.added3)) eq_refl eq_refl).
Defined.

End ViewBox.

Section FirstSegment.

Import Renderer.

Variable numberToString : float -> string.
Variable dimensions : Dimensions.
Variable distances : list float.

Lemma forEach_appends (lenses : list Lens.t) (i : nat) (s : RayState) :
  exists t,
    pathData (Js.forEach_from
                (trace_lens numberToString dimensions distances) i lenses s)
    = (pathData s ++ t)%string.
Proof.
  revert i s. induction lenses as [|lens rest IH]; intros i s.
  - exists EmptyString. cbn. clear. induction (pathData s) as [|x p IH];
      cbn; congruence.
  - cbn [Js.forEach_from].
    destruct (IH (S i) (trace_lens numberToString dimensions distances
                          s lens i)) as [t Ht].
    rewrite Ht. cbn [trace_lens pathData]. rewrite string_app_assoc. eauto.
Qed.

(** X12. For at least one lens and a start height other than [-0], the
    path begins [M 0 startY L 200 startY], whatever the distances, the
    canvas and the lenses are: the ray is level up to the first lens, which
    sits at x = 200. *)
Theorem ray_is_level_up_to_first_lens (startY : float) (lens : Lens.t)
    (rest : list Lens.t) :
  startY <> neg_zero ->
  exists tail,
    simpleRayTrace numberToString dimensions distances startY (lens :: rest)
    = ((("M 0 " ++ numberToString startY) ++
        (" L " ++ numberToString 200 ++ " " ++ numberToString startY))
       ++ tail)%string.
Proof.
  intros Hy. unfold simpleRayTrace, Js.forEach. cbn [Js.forEach_from].
  cbv zeta.
  match goal with
  | |- context [Js.forEach_from ?f 1 rest ?s1] =>
      destruct (forEach_appends rest 1 s1) as [t Ht]; rewrite Ht
  end.
  cbn [trace_lens pathData currentX currentYPos currentSlope].
  change (calculateLensX distances 0) with 200%float.
  rewrite (add_zero_mul_finite startY 200 eq_refl Hy).
  rewrite string_app_assoc. eauto.
Qed.

End FirstSegment.

Lemma ray_is_level_up_to_first_lens_witness :
  150%float <> neg_zero /\
  exists tail,
    Renderer.simpleRayTrace (fun _ => "#"%string)
      Renderer.initialDimensions [] 150 [Config.new_lens 1]
    = ((("M 0 " ++ "#") ++ (" L " ++ "#" ++ " " ++ "#")) ++ tail)%string.
Proof.
  assert (H : 150%float <> neg_zero) by discriminate.
  split; [exact H|].
  exact (ray_is_level_up_to_first_lens (fun _ => "#"%string)
           Renderer.initialDimensions [] 150 (Config.new_lens 1) [] H).
Defined.

Section DeflectTrace.

Import RendererDeflect.

Variable numberToString : float -> string.
Variable dimensions : Renderer.Dimensions.
Variable distances : list float.

Lemma deflect_forEach_on_axis (lenses : list Lens.t) (i : nat)
    (s : RayState) :
  PrimFloat.is_finite (Renderer.centerY dimensions) = true ->
  Renderer.centerY dimensions <> neg_zero ->
  Forall (fun l => PrimFloat.is_finite (Lens.power l) = true) lenses ->
  currentY s = Renderer.centerY dimensions ->
  Js.forEach_from (trace_lens numberToString dimensions distances)
    i lenses s
  = {| pathData :=
         fold_left
           (fun acc p => (acc ++ Spec.render_line numberToString p)%string)
           (imap (fun j _ =>
                    (calculateLensX distances (Z.of_nat (i + j)),
                     Renderer.centerY dimensions))
              lenses)
           (pathData s);
       currentY := Renderer.centerY dimensions |}.
Proof.
  intros Hc Hz Hp. revert i s.
  induction Hp as [|lens rest Hlens _ IH]; intros i s Hs.
  - destruct s; cbn in *. congruence.
  - cbn [Js.forEach_from imap fold_left]. rewrite IH.
    + f_equal. rewrite Nat.add_0_r. unfold trace_lens at 1.
      cbn [pathData]. rewrite Hs.
      apply (f_equal (fun l => fold_left _ l _)).
      apply imap_ext. intros j x _. unfold compose.
      replace (i + S j)%nat with (S i + j)%nat by lia. reflexivity.
    + cbn [trace_lens currentY]. rewrite Hs.
      apply deflection_on_axis; assumption.
Qed.

(** X13. In the trace that deflects the height directly ([currentY -=
    power * (currentY - centerY) * 0.25]), a ray that starts on the optical
    axis stays on it: for a finite [centerY] other than [-0] and lenses of
    finite power, every point of the path, the end point included, has
    y = centerY. *)
Theorem deflect_axis_ray_is_straight (lenses : list Lens.t) :
  PrimFloat.is_finite (Renderer.centerY dimensions) = true ->
  Renderer.centerY dimensions <> neg_zero ->
  Forall (fun l => PrimFloat.is_finite (Lens.power l) = true) lenses ->
  simpleRayTrace numberToString dimensions distances
    (Renderer.centerY dimensions) lenses
  = Spec.render numberToString
      ((0%float, Renderer.centerY dimensions)
       :: imap (fun i _ =>
                  (calculateLensX distances (Z.of_nat i),
                   Renderer.centerY dimensions))
            lenses
       ++ [ (Js.Math_max (Renderer.width dimensions)
               (calculateLensX distances (Z.of_nat (length lenses) - 1)
                + 100)%float,
             Renderer.centerY dimensions) ]).
Proof.
  intros Hc Hz Hp. unfold simpleRayTrace, Js.forEach. cbv zeta.
  rewrite deflect_forEach_on_axis by (assumption || reflexivity).
  cbn [pathData currentY Spec.render snd]. rewrite fold_left_app.
  reflexivity.
Qed.

End DeflectTrace.

Lemma deflect_axis_ray_is_straight_witness :
  RendererDeflect.simpleRayTrace (fun _ => "#"%string)
    Renderer.initialDimensions [1.0%float] 200
    [Config.new_lens 1; Config.new_lens 2]
  = Spec.render (fun _ => "#"%string)
      [ (0%float, 200%float); (200%float, 200%float);
        (400%float, 200%float); (800%float, 200%float) ].
Proof.
  apply (deflect_axis_ray_is_straight (fun _ => "#"%string)
           Renderer.initialDimensions [1.0%float]
           [Config.new_lens 1; Config.new_lens 2]).
  - reflexivity.
  - discriminate.
  - repeat constructor.
Defined.

(* ================================================================== *)
(** * The step of the axial layout *)

Section AxialStep.

Import Renderer.

(** X14. Each lens is placed one gap to the right of the previous one:
    [calculateLensX(k + 1)] is [calculateLensX(k)] plus
    [(distances[k] || 1.0) * 200], for every contents of the distances; past
    the end of the array each further lens advances by exactly 200. *)
Theorem calculateLensX_next (distances : list float) (k : nat) :
  calculateLensX distances (S k)
  = (calculateLensX distances k
     + Js.or_default (distances !! k) 1.0 * 200)%float /\
  ((length distances <= k)%nat ->
   calculateLensX distances (S k)
   = (calculateLensX distances k + 200)%float).
Proof.
  assert (Hstep : calculateLensX distances (S k)
                  = (calculateLensX distances k
                     + Js.or_default (distances !! k) 1.0 * 200)%float).
  { unfold calculateLensX, Js.for_upto. cbn [Nat.eqb].
    rewrite seq_S, fold_left_app. cbn [fold_left Nat.add].
    destruct k as [|k]; reflexivity. }
  split; [exact Hstep|].
  intros Hk. rewrite Hstep, (lookup_ge_None_2 distances k Hk). reflexivity.
Qed.

Lemma calculateLensX_next_witness :
  calculateLensX [1.0; 1.5]%float 3
  = (calculateLensX [1.0; 1.5]%float 2 + 200)%float.
Proof.
  apply (proj2 (calculateLensX_next [1.0; 1.5]%float 2)). cbn. constructor.
Defined.

End AxialStep.
